(** * SimpleLogger: target registry, verbosity filter and line rendering

    A shallow embedding of [src/SimpleLogger/SimpleLogger.hpp]: the severity
    enumeration, the [Target] base class with its two concrete renderers, and
    the [Logger] that keeps an ordered vector of shared handles.

    Memory is explicit.  A [Target*] is an address into the store of objects
    the caller owns; a [std::shared_ptr<Target*>] is the address of the
    [Target*] cell that [std::make_shared] allocated, and two shared pointers
    compare equal exactly when they hold the same cell address.  Everything
    written to [std::cout] or to a file stream is appended to a trace. *)

From Stdlib Require Import ZArith String Ascii List Lia.
From stdpp Require Import base option list gmap strings.

Local Open Scope Z_scope.

Module SimpleLogger.

(** ** Machine integers *)

(** [int] is 32 bits wide on every platform the library builds on. *)
Definition INT_MIN : Z := - 2 ^ 31.
Definition INT_MAX : Z := 2 ^ 31 - 1.

Definition in_int (z : Z) : bool := (INT_MIN <=? z) && (z <=? INT_MAX).

(** Signed overflow is undefined behaviour: the arithmetic on [int] members
    yields [None] when the mathematical result leaves the range. *)
Definition int_incr (z : Z) : option Z :=
  if in_int (z + 1) then Some (z + 1) else None.
Definition int_decr (z : Z) : option Z :=
  if in_int (z - 1) then Some (z - 1) else None.

(** ** [enum class SeverityLevels] *)

Inductive SeverityLevels : Set :=
  | Unknown | Failure | Error | Warning | Important | Info | Debug | Verbose.

(** [static_cast<int>(severityLevel)] *)
Definition severity_int (s : SeverityLevels) : Z :=
  match s with
  | Unknown => 5
  | Failure => 4
  | Error => 3
  | Warning => 2
  | Important => 1
  | Info => 0
  | Debug => -1
  | Verbose => -2
  end.

(** ** [class Target] *)

(** The dynamic type of a [Target] object selects the override of the
    virtual [Log]. *)
Inductive TargetKind : Set := ConsoleKind | FileKind.

Record Target : Set := mkTarget {
  kind : TargetKind;
  Prefix : string;
  AddColors : bool;
  WholeMessageColor : bool;
  FilePath : string;
  AppendToFile : bool;
  AddTime : bool;
  AddThreadID : bool
}.

Definition ESC : string := String "027" EmptyString.
Definition NL : string := String "010" EmptyString.
Definition SP : string := " ".

(** [ConsoleTarget(addColors, wholeMessageColor, addTime, addThreadID)];
    the members it does not assign keep their in-class initialisers. *)
Definition ConsoleTarget (addColors wholeMessageColor addTime addThreadID : bool)
  : Target :=
  {| kind := ConsoleKind;
     Prefix := "";
     AddColors := addColors;
     WholeMessageColor := wholeMessageColor;
     FilePath := "logs/LogFile.log";
     AppendToFile := false;
     AddTime := addTime;
     AddThreadID := addThreadID |}.

(** [FileTarget(filePath, shouldAppend, addTime, addThreadID)].  The model
    takes the stream as opened. *)
Definition FileTarget (filePath : string) (shouldAppend addTime addThreadID : bool)
  : Target :=
  {| kind := FileKind;
     Prefix := "";
     AddColors := true;
     WholeMessageColor := true;
     FilePath := filePath;
     AppendToFile := shouldAppend;
     AddTime := addTime;
     AddThreadID := addThreadID |}.

(** Configuration mutators of the base class. *)
Definition Target_SetPrefix (prefix : string) (this : Target) : Target :=
  {| kind := kind this;
     Prefix := prefix;
     AddColors := AddColors this;
     WholeMessageColor := WholeMessageColor this;
     FilePath := FilePath this;
     AppendToFile := AppendToFile this;
     AddTime := AddTime this;
     AddThreadID := AddThreadID this |}.

Definition Target_EnableColors (shouldEnable wholeMessageColor : bool)
  (this : Target) : Target :=
  {| kind := kind this;
     Prefix := Prefix this;
     AddColors := shouldEnable;
     WholeMessageColor := wholeMessageColor;
     FilePath := FilePath this;
     AppendToFile := AppendToFile this;
     AddTime := AddTime this;
     AddThreadID := AddThreadID this |}.

Definition Target_DisableColors (this : Target) : Target :=
  {| kind := kind this;
     Prefix := Prefix this;
     AddColors := false;
     WholeMessageColor := WholeMessageColor this;
     FilePath := FilePath this;
     AppendToFile := AppendToFile this;
     AddTime := AddTime this;
     AddThreadID := AddThreadID this |}.

Definition Target_ChangeFilePath (filePath : string) (this : Target) : Target :=
  {| kind := kind this;
     Prefix := Prefix this;
     AddColors := AddColors this;
     WholeMessageColor := WholeMessageColor this;
     FilePath := filePath;
     AppendToFile := AppendToFile this;
     AddTime := AddTime this;
     AddThreadID := AddThreadID this |}.

Definition Target_AppendToLogFile (shouldAppend : bool) (this : Target) : Target :=
  {| kind := kind this;
     Prefix := Prefix this;
     AddColors := AddColors this;
     WholeMessageColor := WholeMessageColor this;
     FilePath := FilePath this;
     AppendToFile := shouldAppend;
     AddTime := AddTime this;
     AddThreadID := AddThreadID this |}.

Definition SeverityLevelToText (severityLevel : SeverityLevels) : string :=
  match severityLevel with
  | Failure => "[ FAILURE ]"
  | Error => "[  ERROR  ]"
  | Warning => "[ WARNING ]"
  | Important => "[IMPORTANT]"
  | Info => "[  INFO   ]"
  | Debug => "[  DEBUG  ]"
  | Verbose => "[ VERBOSE ]"
  | Unknown => "[ UNKNOWN ]"
  end.

Definition SeverityLevelToColor (severityLevel : SeverityLevels) : string :=
  match severityLevel with
  | Failure => ESC +:+ "[31m"
  | Error => ESC +:+ "[91m"
  | Warning => ESC +:+ "[33m"
  | Important => ESC +:+ "[32m"
  | Info => ESC +:+ "[34m"
  | Debug => ESC +:+ "[35m"
  | Verbose => ESC +:+ "[35m"
  | Unknown => ESC +:+ "[90m"
  end.

(** The overload without argument: the reset sequence. *)
Definition SeverityLevelToColor_reset : string := ESC +:+ "[0m".

(** ** The environment of a render call

    [UTCTime()] reads the system clock and [std::this_thread::get_id()] names
    the calling thread.  The clock is a function of the number of reads made
    so far, so that two targets served by one [Logger::Log] call may see
    different seconds. *)
Record Env : Type := mkEnv {
  UTCTime : nat -> string;
  this_thread_id : string
}.

(** A stream under construction together with the number of clock reads. *)
Definition Stream : Type := (string * nat)%type.

Definition put (s : string) (o : Stream) : Stream := (o.1 +:+ s, o.2).

Definition put_time (env : Env) (o : Stream) : Stream :=
  (o.1 +:+ UTCTime env o.2, S o.2).

Definition when (b : bool) (f : Stream -> Stream) (o : Stream) : Stream :=
  if b then f o else o.

(** [o << s] is the stream after [s] has been written to it. *)
Local Notation "o << s" := (put s o) (at level 50, left associativity).

Definition nonempty (s : string) : bool := negb (String.eqb s "").

(** [ConsoleTarget::Log]: the text written to [std::cout], statement by
    statement, and the clock reads counted from [reads]. *)
Definition ConsoleTarget_Log (env : Env) (this : Target) (reads : nat)
  (severityLevel : SeverityLevels) (message : string) : Stream :=
  let o : Stream := (EmptyString, reads) in
  let o := when (nonempty (Prefix this))
             (fun o => o << Prefix this << SP) o in
  let o := when (AddColors this && WholeMessageColor this)
             (fun o => o << SeverityLevelToColor severityLevel) o in
  let o := when (AddTime this) (fun o => put_time env o << SP) o in
  let o :=
    if AddColors this && WholeMessageColor this then
      o << SeverityLevelToText severityLevel << SP
    else if AddColors this && negb (WholeMessageColor this) then
      o << SeverityLevelToColor severityLevel
        << SeverityLevelToText severityLevel
        << SeverityLevelToColor_reset << SP
    else
      o << SeverityLevelToText severityLevel << SP in
  let o := when (AddThreadID this)
             (fun o => o << "[" << this_thread_id env << "]" << SP) o in
  let o := o << message << NL in
  let o := when (AddColors this && WholeMessageColor this)
             (fun o => o << SeverityLevelToColor_reset) o in
  o.

(** [FileTarget::Log]: the text written to the file stream, taken as open
    and accepting writes. *)
Definition FileTarget_Log (env : Env) (this : Target) (reads : nat)
  (severityLevel : SeverityLevels) (message : string) : Stream :=
  let o : Stream := (EmptyString, reads) in
  let o := when (nonempty (Prefix this))
             (fun o => o << Prefix this << SP) o in
  let o := when (AddTime this) (fun o => put_time env o << SP) o in
  let o := o << SeverityLevelToText severityLevel << SP in
  let o := when (AddThreadID this)
             (fun o => o << "[" << this_thread_id env << "]" << SP) o in
  let o := o << message << NL in
  o.

(** Virtual dispatch of [Target::Log] on the dynamic type. *)
Definition Target_Log (env : Env) (this : Target) (reads : nat)
  (severityLevel : SeverityLevels) (message : string) : Stream :=
  match kind this with
  | ConsoleKind => ConsoleTarget_Log env this reads severityLevel message
  | FileKind => FileTarget_Log env this reads severityLevel message
  end.

(** ** Memory and output *)

(** Addresses of caller-owned [Target] objects ([Target*]) and addresses of
    the [Target*] cells created by [std::make_shared] (the identity of a
    [std::shared_ptr<Target*>]). *)
Abbreviation ptr := positive (only parsing).
Abbreviation handle := positive (only parsing).

Inductive Sink : Set := Cout | LogFile.

(** One [Target::Log] call: the stream written, the object that wrote, and
    the text. *)
Record Event : Set := Write {
  ev_sink : Sink;
  ev_target : ptr;
  ev_text : string
}.

Record World : Type := mkWorld {
  objects : gmap ptr Target;   (* the Target objects, owned by the caller *)
  cells : gmap handle ptr;     (* the shared Target* cells still referenced *)
  clock_reads : nat;           (* calls of UTCTime() so far *)
  output : list Event          (* everything written, oldest first *)
}.

Definition sink_of (t : Target) : Sink :=
  match kind t with ConsoleKind => Cout | FileKind => LogFile end.

(** [p->Log(severityLevel, message)] on a raw pointer; dereferencing an
    address that holds no object is undefined. *)
Definition call_Log (env : Env) (p : ptr) (severityLevel : SeverityLevels)
  (message : string) (w : World) : option World :=
  t ← objects w !! p;
  let o := Target_Log env t (clock_reads w) severityLevel message in
  Some {| objects := objects w;
          cells := cells w;
          clock_reads := o.2;
          output := output w ++ [Write (sink_of t) p o.1] |}.

(** [p->SetPrefix(prefix)] and the other mutators on a raw pointer. *)
Definition call_mutator (f : Target -> Target) (p : ptr) (w : World)
  : option World :=
  t ← objects w !! p;
  Some {| objects := <[p := f t]> (objects w);
          cells := cells w;
          clock_reads := clock_reads w;
          output := output w |}.

(** Dereferencing a shared handle yields the raw pointer in its cell. *)
Definition deref (w : World) (target : handle) : option ptr := cells w !! target.

(** ** [class Logger] *)

Record Logger : Set := mkLogger {
  VerboseLevel : Z;
  InsertIndex : Z;
  Targets : list handle
}.

(** [Logger()] *)
Definition Logger_new : Logger :=
  {| VerboseLevel := severity_int Verbose; InsertIndex := 0; Targets := [] |}.

(** [v.emplace(v.begin() + i, x)]: the iterator must lie in
    [[begin, end]]. *)
Definition vector_emplace {A} (i : Z) (x : A) (v : list A) : option (list A) :=
  if (0 <=? i) && (i <=? Z.of_nat (length v)) then
    Some (take (Z.to_nat i) v ++ x :: drop (Z.to_nat i) v)
  else None.

(** [v[i]] *)
Definition vector_at {A} (i : Z) (v : list A) : option A :=
  if 0 <=? i then v !! Z.to_nat i else None.

(** The world after [std::make_shared<Target*>(target)] has placed the new
    cell at address [h]. *)
Definition with_cell (h : handle) (target : ptr) (w : World) : World :=
  {| objects := objects w;
     cells := <[h := target]> (cells w);
     clock_reads := clock_reads w;
     output := output w |}.

(** [Logger::AddTarget].  [std::make_shared] returns a cell at an address
    that no live cell occupies.  A cell lives as long as some shared pointer
    refers to it: the vector keeps its entries alive, and the caller keeps
    the copies it was handed, so no cell is ever released in the model. *)
Definition AddTarget (target : ptr) (lg : Logger) (w : World)
  : option (handle * Logger * World) :=
  let newTarget : handle := fresh (dom (cells w)) in
  let w' := with_cell newTarget target w in
  targets' ← vector_emplace (InsertIndex lg) newTarget (Targets lg);
  index' ← int_incr (InsertIndex lg);
  result ← vector_at (index' - 1) targets';
  Some (result,
        {| VerboseLevel := VerboseLevel lg;
           InsertIndex := index';
           Targets := targets' |},
        w').

(** [Logger::DeleteTarget]: [std::find] compares the shared pointers, that
    is, the cell addresses. *)
Definition DeleteTarget (deleteTarget : handle) (lg : Logger) : option Logger :=
  match list_find (fun h => h = deleteTarget) (Targets lg) with
  | Some (it, _) =>
      index' ← int_decr (InsertIndex lg);
      Some {| VerboseLevel := VerboseLevel lg;
              InsertIndex := index';
              Targets := delete it (Targets lg) |}
  | None => Some lg
  end.

(** [Logger::SetVerboseLevel(const int&)] *)
Definition SetVerboseLevel_int (verboseLevel : Z) (lg : Logger) : Logger :=
  {| VerboseLevel := verboseLevel;
     InsertIndex := InsertIndex lg;
     Targets := Targets lg |}.

(** [Logger::SetVerboseLevel(const SeverityLevels&)] *)
Definition SetVerboseLevel (severityLevel : SeverityLevels) (lg : Logger) : Logger :=
  {| VerboseLevel := severity_int severityLevel;
     InsertIndex := InsertIndex lg;
     Targets := Targets lg |}.

(** The range-based [for] over [Targets]: each handle is dereferenced and
    the body runs on the raw pointer it holds. *)
Fixpoint for_each_target (body : ptr -> World -> option World)
  (targets : list handle) (w : World) : option World :=
  match targets with
  | [] => Some w
  | target :: rest =>
      p ← deref w target;
      w' ← body p w;
      for_each_target body rest w'
  end.

(** [Logger::SetPrefix] *)
Definition SetPrefix (prefix : string) (lg : Logger) (w : World) : option World :=
  for_each_target (call_mutator (Target_SetPrefix prefix)) (Targets lg) w.

(** [Logger::Log(const SeverityLevels&, std::string_view)] *)
Definition Log (env : Env) (severityLevel : SeverityLevels) (message : string)
  (lg : Logger) (w : World) : option World :=
  if severity_int severityLevel <? VerboseLevel lg then Some w
  else for_each_target
         (fun p => call_Log env p severityLevel message) (Targets lg) w.

(** [Logger::Log(std::string_view)] *)
Definition Log_message (env : Env) (message : string) (lg : Logger) (w : World)
  : option World :=
  Log env Unknown message lg w.

(** ** Call sequences

    A client drives one [Logger] and the [Target] objects it owns through a
    sequence of calls; a call whose behaviour is undefined stops the run. *)

Record State : Type := mkState {
  logger : Logger;
  world : World
}.

Inductive Mutator : Set :=
  | MSetPrefix (prefix : string)
  | MEnableColors (shouldEnable wholeMessageColor : bool)
  | MDisableColors
  | MChangeFilePath (filePath : string)
  | MAppendToLogFile (shouldAppend : bool).

Definition mutate (m : Mutator) : Target -> Target :=
  match m with
  | MSetPrefix prefix => Target_SetPrefix prefix
  | MEnableColors e c => Target_EnableColors e c
  | MDisableColors => Target_DisableColors
  | MChangeFilePath f => Target_ChangeFilePath f
  | MAppendToLogFile a => Target_AppendToLogFile a
  end.

Inductive Call : Set :=
  | CallAddTarget (target : ptr)
  | CallDeleteTarget (deleteTarget : handle)
  | CallSetVerboseLevel_int (verboseLevel : Z)
  | CallSetVerboseLevel (severityLevel : SeverityLevels)
  | CallSetPrefix (prefix : string)
  | CallLog (severityLevel : SeverityLevels) (message : string)
  | CallLog_message (message : string)
  | CallTargetMutator (p : ptr) (m : Mutator)
  | CallTargetLog (p : ptr) (severityLevel : SeverityLevels) (message : string).

Definition step (env : Env) (c : Call) (s : State) : option State :=
  match c with
  | CallAddTarget target =>
      r ← AddTarget target (logger s) (world s);
      Some {| logger := r.1.2; world := r.2 |}
  | CallDeleteTarget h =>
      lg ← DeleteTarget h (logger s);
      Some {| logger := lg; world := world s |}
  | CallSetVerboseLevel_int v =>
      Some {| logger := SetVerboseLevel_int v (logger s); world := world s |}
  | CallSetVerboseLevel sev =>
      Some {| logger := SetVerboseLevel sev (logger s); world := world s |}
  | CallSetPrefix prefix =>
      w ← SetPrefix prefix (logger s) (world s);
      Some {| logger := logger s; world := w |}
  | CallLog sev message =>
      w ← Log env sev message (logger s) (world s);
      Some {| logger := logger s; world := w |}
  | CallLog_message message =>
      w ← Log_message env message (logger s) (world s);
      Some {| logger := logger s; world := w |}
  | CallTargetMutator p m =>
      w ← call_mutator (mutate m) p (world s);
      Some {| logger := logger s; world := w |}
  | CallTargetLog p sev message =>
      w ← call_Log env p sev message (world s);
      Some {| logger := logger s; world := w |}
  end.

Fixpoint run (env : Env) (calls : list Call) (s : State) : option State :=
  match calls with
  | [] => Some s
  | c :: rest => s' ← step env c s; run env rest s'
  end.

(** A freshly constructed [Logger] next to the objects the caller built;
    no shared cell exists yet and nothing has been written. *)
Definition init (objs : gmap ptr Target) : State :=
  {| logger := Logger_new;
     world := {| objects := objs; cells := ∅; clock_reads := 0; output := [] |} |}.

(** ** Invariants *)

(** The insertion index is the size of the vector, and fits its [int]. *)
Definition index_inv (lg : Logger) : Prop :=
  InsertIndex lg = Z.of_nat (length (Targets lg)) ∧ InsertIndex lg <= INT_MAX.

(** The vector holds pairwise distinct handles, each to a live cell. *)
Definition handles_inv (lg : Logger) (w : World) : Prop :=
  NoDup (Targets lg) ∧ Forall (λ h : handle, h ∈ dom (cells w)) (Targets lg).

(** Every registered handle leads to an object: the caller kept the
    registered targets alive. *)
Definition live (lg : Logger) (w : World) : Prop :=
  Forall (λ h : handle, is_Some (p ← deref w h; objects w !! p)) (Targets lg).

Definition wf (s : State) : Prop :=
  index_inv (logger s) ∧ handles_inv (logger s) (world s).

#[global] Instance index_inv_dec lg : Decision (index_inv lg).
Proof. unfold index_inv. apply _. Defined.

#[global] Instance handles_inv_dec lg w : Decision (handles_inv lg w).
Proof. unfold handles_inv. apply _. Defined.

#[global] Instance live_dec lg w : Decision (live lg w).
Proof. unfold live. apply _. Defined.

#[global] Instance wf_dec s : Decision (wf s).
Proof. unfold wf. apply _. Defined.

(** Calls that only register or deregister. *)
Definition is_registration (c : Call) : bool :=
  match c with
  | CallAddTarget _ | CallDeleteTarget _ => true
  | _ => false
  end.

(** The raw pointers behind a list of handles. *)
Definition pointees (w : World) (hs : list handle) : list (option ptr) :=
  map (deref w) hs.

(** Event [e] is what the target behind handle [h] writes for
    [(severityLevel, message)] at some reading of the clock. *)
Definition renders (env : Env) (w : World) (severityLevel : SeverityLevels)
  (message : string) (h : handle) (e : Event) : Prop :=
  ∃ (p : ptr) (t : Target) (reads : nat),
    deref w h = Some p ∧ objects w !! p = Some t ∧
    e = Write (sink_of t) p (Target_Log env t reads severityLevel message).1.

(** ** The rendered line as the specification words it

    The specification lists the segments of a console line and says that the
    enabled ones are written left to right, separated by one space.  Whole
    message colour is read as the mode in which colours are enabled and
    cover the whole message; the prefix counts as enabled when it is not
    empty. *)
Definition spec_segments (env : Env) (this : Target) (reads : nat)
  (severityLevel : SeverityLevels) (message : string) : list string :=
  let whole := AddColors this && WholeMessageColor this in
  let tag_only := AddColors this && negb (WholeMessageColor this) in
  (if nonempty (Prefix this) then [Prefix this] else [])
  ++ (if whole then [SeverityLevelToColor severityLevel] else [])
  ++ (if AddTime this then [UTCTime env reads] else [])
  ++ [if tag_only then
        SeverityLevelToColor severityLevel
          +:+ SeverityLevelToText severityLevel
          +:+ SeverityLevelToColor_reset
      else SeverityLevelToText severityLevel]
  ++ (if AddThreadID this then ["[" +:+ this_thread_id env +:+ "]"] else [])
  ++ [message]
  ++ (if whole then [SeverityLevelToColor_reset] else []).

Definition spec_line (env : Env) (this : Target) (reads : nat)
  (severityLevel : SeverityLevels) (message : string) : string :=
  String.concat SP (spec_segments env this reads severityLevel message).

(** What was written by targets other than [p]. *)
Definition output_of_others (p : ptr) (w : World) : list Event :=
  filter (λ e, ev_target e ≠ p) (output w).

(** Two worlds that differ at most in the prefix of the object at [p] and
    in what that object wrote. *)
Definition same_except (p : ptr) (w w' : World) : Prop :=
  cells w' = cells w
  ∧ clock_reads w' = clock_reads w
  ∧ (∀ q : ptr, q ≠ p → objects w' !! q = objects w !! q)
  ∧ (∃ prefix, objects w' !! p = Target_SetPrefix prefix <$> objects w !! p)
  ∧ output_of_others p w' = output_of_others p w.

(** ** A concrete scenario

    The objects of the example driver: two console targets and one file
    target, at three distinct addresses, and a clock that ticks between two
    reads. *)

Definition main_env : Env :=
  {| UTCTime := fun n =>
       match n with
       | O => "2024-05-17 10:15:00"%string
       | _ => "2024-05-17 10:15:01"%string
       end;
     this_thread_id := "140211" |}.

Definition tmp1 : ptr := 1%positive.
Definition tmp2 : ptr := 2%positive.
Definition tmp3 : ptr := 3%positive.

Definition main_objects : gmap ptr Target :=
  <[tmp1 := ConsoleTarget true true true true]>
    (<[tmp2 := ConsoleTarget true true true true]>
       (<[tmp3 := FileTarget "LogFile.log" false true true]> ∅)).

(** The state after the three registrations of the driver. *)
Definition main_registered : option State :=
  run main_env [CallAddTarget tmp1; CallAddTarget tmp2; CallAddTarget tmp3]
    (init main_objects).

(** The same state written out: handles [1], [2], [3] in registration
    order. *)
Definition registered : State :=
  {| logger := {| VerboseLevel := -2;
                  InsertIndex := 3;
                  Targets := [1%positive; 2%positive; 3%positive] |};
     world := {| objects := main_objects;
                 cells := <[1%positive := tmp1]>
                            (<[2%positive := tmp2]>
                               (<[3%positive := tmp3]> ∅));
                 clock_reads := 0;
                 output := [] |} |}.

(** The calls of the first block of the driver's [main], with the handles
    the three registrations return and the messages as the formatting
    library hands them to the Logger. *)
Definition main_calls : list Call :=
  [ CallSetVerboseLevel_int (-2);
    CallSetVerboseLevel Verbose;
    CallAddTarget tmp1;
    CallAddTarget tmp2;
    CallAddTarget tmp3;
    CallTargetMutator tmp1 (MSetPrefix "[Target 1]");
    CallTargetMutator tmp2 (MSetPrefix "[Target 2]");
    CallTargetLog tmp1 Failure "Only console target 1!";
    CallTargetLog tmp2 Failure "Only console target 2!";
    CallLog Failure "All targets";
    CallLog Failure "test and 1.5";
    CallLog Debug "Hello Dog!";
    CallLog Info "I would rather be happy than right";
    CallDeleteTarget 1%positive;
    CallDeleteTarget 2%positive;
    CallDeleteTarget 3%positive ].

(** ** Auxiliary notions for the properties below *)

(** The uncoloured segments of a line, in the order they are written. *)
Definition plain_segments (env : Env) (this : Target) (reads : nat)
  (severityLevel : SeverityLevels) (message : string) : list string :=
  (if nonempty (Prefix this) then [Prefix this] else [])
  ++ (if AddTime this then [UTCTime env reads] else [])
  ++ [SeverityLevelToText severityLevel]
  ++ (if AddThreadID this then ["[" +:+ this_thread_id env +:+ "]"] else [])
  ++ [message].

(** Whether the target behind a handle reads the clock when it renders. *)
Definition reads_clock (w : World) (h : handle) : bool :=
  match p ← deref w h; objects w !! p with
  | Some t => AddTime t
  | None => false
  end.

(** The raw pointer a call passes or dereferences itself, if any. *)
Definition pointer_of_call (c : Call) : option ptr :=
  match c with
  | CallAddTarget target => Some target
  | CallTargetMutator p _ => Some p
  | CallTargetLog p _ _ => Some p
  | _ => None
  end.

(** The caller's side of the contract: every raw pointer it hands over or
    uses leads to an object. *)
Definition valid_call (w : World) (c : Call) : Prop :=
  match pointer_of_call c with
  | Some p => is_Some (objects w !! p)
  | None => True
  end.

#[global] Instance valid_call_dec w c : Decision (valid_call w c).
Proof. unfold valid_call. destruct (pointer_of_call c); apply _. Defined.

Definition sets_verbosity (c : Call) : bool :=
  match c with
  | CallSetVerboseLevel_int _ | CallSetVerboseLevel _ => true
  | _ => false
  end.

(** [Engine::Log] of the example driver: two loggers side by side, in the
    same address space. *)
Module Engine.

Record Log : Set := mkLog {
  CoreLogger : Logger;
  ClientLogger : Logger
}.

(** [Engine::Log()] *)
Definition Log_new : Log :=
  {| CoreLogger := Logger_new; ClientLogger := Logger_new |}.

End Engine.

(** ** Basic facts *)

(** Closes a decidable proposition about concrete data by evaluation. *)
Ltac by_evaluation :=
  lazymatch goal with
  | |- ?P => refine (@bool_decide_unpack P _ _); vm_compute; exact I
  end.

Lemma in_int_bounds z : in_int z = true ↔ INT_MIN <= z <= INT_MAX.
Proof. unfold in_int. rewrite andb_true_iff, !Z.leb_le. tauto. Qed.

Lemma vector_emplace_end {A} (x : A) (v : list A) :
  vector_emplace (Z.of_nat (length v)) x v = Some (v ++ [x]).
Proof.
  unfold vector_emplace.
  replace (0 <=? Z.of_nat (length v)) with true by (symmetry; apply Z.leb_le; lia).
  rewrite Z.leb_refl. simpl.
  by rewrite Nat2Z.id, firstn_all, drop_all.
Qed.

Lemma vector_at_last {A} (x : A) (v : list A) :
  vector_at (Z.of_nat (length v)) (v ++ [x]) = Some x.
Proof.
  unfold vector_at.
  replace (0 <=? Z.of_nat (length v)) with true by (symmetry; apply Z.leb_le; lia).
  rewrite Nat2Z.id. apply list_lookup_middle. done.
Qed.

(** Under the index invariant and below [INT_MAX] entries, [AddTarget] is
    defined, allocates the fresh cell, appends it and returns it. *)
Lemma AddTarget_append target lg w :
  index_inv lg →
  Z.of_nat (length (Targets lg)) < INT_MAX →
  AddTarget target lg w =
    Some (fresh (dom (cells w)),
          {| VerboseLevel := VerboseLevel lg;
             InsertIndex := InsertIndex lg + 1;
             Targets := Targets lg ++ [fresh (dom (cells w))] |},
          {| objects := objects w;
             cells := <[fresh (dom (cells w)) := target]> (cells w);
             clock_reads := clock_reads w;
             output := output w |}).
Proof.
  intros [Hidx _] Hlt. unfold AddTarget. rewrite Hidx.
  rewrite vector_emplace_end. simpl.
  unfold int_incr.
  assert (in_int (Z.of_nat (length (Targets lg)) + 1) = true) as ->.
  { apply in_int_bounds. unfold INT_MIN, INT_MAX in *. lia. }
  simpl.
  replace (Z.of_nat (length (Targets lg)) + 1 - 1)
    with (Z.of_nat (length (Targets lg))) by lia.
  by rewrite vector_at_last.
Qed.

(** At [INT_MAX] entries the increment overflows. *)
Lemma AddTarget_defined target lg w :
  index_inv lg →
  is_Some (AddTarget target lg w) →
  Z.of_nat (length (Targets lg)) < INT_MAX.
Proof.
  intros [Hidx _] [r Hr]. unfold AddTarget in Hr.
  rewrite Hidx, vector_emplace_end in Hr. simpl in Hr.
  unfold int_incr in Hr.
  destruct (in_int (Z.of_nat (length (Targets lg)) + 1)) eqn:E; [|done].
  apply in_int_bounds in E. lia.
Qed.

Lemma list_find_handle (h : positive) (l : list positive) :
  ((h ∉ l) ∧ list_find (λ h' : positive, h' = h) l = None) ∨
  (∃ l1 l2, l = l1 ++ h :: l2 ∧ (h ∉ l1) ∧
            list_find (λ h' : positive, h' = h) l = Some (length l1, h)).
Proof.
  destruct (decide (h ∈ l)) as [Hin|Hnot].
  - right. apply list_elem_of_split_l in Hin as (l1 & l2 & -> & Hl1).
    exists l1, l2. split_and!; [done..|].
    apply list_find_Some. split_and!.
    + by apply list_lookup_middle.
    + done.
    + intros j y Hj Hlt ->. apply Hl1.
      rewrite lookup_app_l in Hj by done. by eapply list_elem_of_lookup_2.
  - left. split; [done|].
    apply list_find_None, Forall_forall. by intros x Hx ->.
Qed.

Lemma DeleteTarget_absent h lg :
  h ∉ Targets lg → DeleteTarget h lg = Some lg.
Proof.
  intros Hnot. unfold DeleteTarget.
  destruct (list_find_handle h (Targets lg)) as [[_ ->]|(l1 & l2 & Heq & _ & _)];
    [done|].
  exfalso. apply Hnot. rewrite Heq. apply elem_of_app. right. left.
Qed.

Lemma DeleteTarget_first h lg (l1 l2 : list positive) :
  Targets lg = l1 ++ h :: l2 →
  h ∉ l1 →
  DeleteTarget h lg =
    index' ← int_decr (InsertIndex lg);
    Some {| VerboseLevel := VerboseLevel lg;
            InsertIndex := index';
            Targets := l1 ++ l2 |}.
Proof.
  intros Heq Hnot. unfold DeleteTarget.
  assert (list_find (λ h' : positive, h' = h) (Targets lg) = Some (length l1, h)) as ->.
  { apply list_find_Some. rewrite Heq. split_and!.
    - by apply list_lookup_middle.
    - done.
    - intros j y Hj Hlt ->. apply Hnot.
      rewrite lookup_app_l in Hj by done. by eapply list_elem_of_lookup_2. }
  by rewrite Heq, delete_middle.
Qed.

(** With the index invariant the decrement never leaves the range. *)
Lemma DeleteTarget_present h lg (l1 l2 : list positive) :
  index_inv lg →
  Targets lg = l1 ++ h :: l2 →
  h ∉ l1 →
  DeleteTarget h lg =
    Some {| VerboseLevel := VerboseLevel lg;
            InsertIndex := InsertIndex lg - 1;
            Targets := l1 ++ l2 |}.
Proof.
  intros [Hidx Hmax] Heq Hnot. rewrite (DeleteTarget_first h lg l1 l2) by done.
  unfold int_decr.
  assert (in_int (InsertIndex lg - 1) = true) as ->; [|done].
  apply in_int_bounds. rewrite Hidx in *. rewrite Heq, length_app in *.
  simpl in *. unfold INT_MIN, INT_MAX in *. lia.
Qed.

Lemma AddTarget_index_inv target lg w r :
  index_inv lg → AddTarget target lg w = Some r → index_inv r.1.2.
Proof.
  intros Hinv Hr.
  pose proof (AddTarget_defined target lg w Hinv (mk_is_Some _ _ Hr)) as Hlt.
  rewrite (AddTarget_append target lg w Hinv Hlt) in Hr.
  injection Hr as <-. destruct Hinv as [Hidx _]. split; simpl.
  - rewrite length_app. simpl. lia.
  - lia.
Qed.

Lemma DeleteTarget_index_inv h lg lg' :
  index_inv lg → DeleteTarget h lg = Some lg' → index_inv lg'.
Proof.
  intros Hinv Hd.
  destruct (list_find_handle h (Targets lg)) as [[Hnot _]|(l1 & l2 & Heq & Hl1 & _)].
  - rewrite DeleteTarget_absent in Hd by done. by injection Hd as <-.
  - rewrite (DeleteTarget_present h lg l1 l2) in Hd by done.
    injection Hd as <-. destruct Hinv as [Hidx Hmax]. split; simpl.
    + rewrite Hidx, Heq, !length_app. simpl. lia.
    + lia.
Qed.

Lemma AddTarget_handles_inv target lg w r :
  index_inv lg → handles_inv lg w →
  AddTarget target lg w = Some r → handles_inv r.1.2 r.2.
Proof.
  intros Hinv [Hnd Hdom] Hr. rewrite Forall_forall in Hdom.
  pose proof (AddTarget_defined target lg w Hinv (mk_is_Some _ _ Hr)) as Hlt.
  rewrite (AddTarget_append target lg w Hinv Hlt) in Hr.
  injection Hr as <-. unfold handles_inv. simpl. split.
  - apply NoDup_app. split_and!; [done| |apply NoDup_singleton].
    intros x Hx Hx'%list_elem_of_singleton. subst x.
    by apply (is_fresh (dom (cells w))), Hdom.
  - apply Forall_forall.
    intros h [Hh|Hh%list_elem_of_singleton]%elem_of_app.
    + apply elem_of_dom. rewrite lookup_insert_is_Some. right.
      split; [|by apply elem_of_dom, Hdom].
      intros <-. by apply (is_fresh (dom (cells w))), Hdom.
    + subst h. apply elem_of_dom. rewrite lookup_insert_is_Some. by left.
Qed.

Lemma DeleteTarget_handles_inv h lg lg' w :
  handles_inv lg w → DeleteTarget h lg = Some lg' → handles_inv lg' w.
Proof.
  intros Hinv Hd. unfold DeleteTarget in Hd.
  destruct (list_find _ _) as [[it x]|]; [|by injection Hd as <-].
  destruct Hinv as [Hnd Hdom]. rewrite Forall_forall in Hdom.
  destruct (int_decr _); [|done]. injection Hd as <-. simpl. split.
  - eapply sublist_NoDup; [|apply sublist_delete]; done.
  - apply Forall_forall. intros h' Hh'. by eapply Hdom, list_elem_of_delete_inv.
Qed.

(** What a loop over the targets leaves alone when its body does. *)
Lemma for_each_target_preserves {X} (f : World → X)
  (body : positive → World → option World) :
  (∀ p w w', body p w = Some w' → f w' = f w) →
  ∀ (targets : list positive) w w',
    for_each_target body targets w = Some w' → f w' = f w.
Proof.
  intros Hbody targets. induction targets as [|h hs IH]; intros w w' Hrun.
  - by injection Hrun as <-.
  - simpl in Hrun. destruct (deref w h) as [p|]; [|done]. simpl in Hrun.
    destruct (body p w) as [w1|] eqn:E; [|done]. simpl in Hrun.
    rewrite (IH _ _ Hrun). by eapply Hbody.
Qed.

Lemma call_Log_cells env p sev msg w w' :
  call_Log env p sev msg w = Some w' → cells w' = cells w.
Proof.
  unfold call_Log. destruct (objects w !! p); [|done].
  by intros [= <-].
Qed.

Lemma call_Log_objects env p sev msg w w' :
  call_Log env p sev msg w = Some w' → objects w' = objects w.
Proof.
  unfold call_Log. destruct (objects w !! p); [|done].
  by intros [= <-].
Qed.

Lemma call_mutator_cells f p w w' :
  call_mutator f p w = Some w' → cells w' = cells w.
Proof.
  unfold call_mutator. destruct (objects w !! p); [|done].
  by intros [= <-].
Qed.

Lemma Log_cells env sev msg lg w w' :
  Log env sev msg lg w = Some w' → cells w' = cells w.
Proof.
  unfold Log. destruct (_ <? _); [by intros [= <-]|].
  apply (for_each_target_preserves cells). intros ???. apply call_Log_cells.
Qed.

Lemma SetPrefix_cells prefix lg w w' :
  SetPrefix prefix lg w = Some w' → cells w' = cells w.
Proof.
  apply (for_each_target_preserves cells). intros ???. apply call_mutator_cells.
Qed.

Lemma handles_inv_cells lg w w' :
  cells w' = cells w → handles_inv lg w → handles_inv lg w'.
Proof. intros Heq [Hnd Hdom]. split; [done|]. by rewrite Heq. Qed.

(** Every defined call keeps the state well formed. *)
Lemma step_wf env c s s' : wf s → step env c s = Some s' → wf s'.
Proof.
  intros [Hidx Hh] Hstep. destruct c; simpl in Hstep.
  - destruct (AddTarget _ _ _) as [r|] eqn:E; [|done]. injection Hstep as <-.
    split; simpl; [by eapply AddTarget_index_inv|by eapply AddTarget_handles_inv].
  - destruct (DeleteTarget _ _) as [lg|] eqn:E; [|done]. injection Hstep as <-.
    split; simpl; [by eapply DeleteTarget_index_inv|by eapply DeleteTarget_handles_inv].
  - by injection Hstep as <-.
  - by injection Hstep as <-.
  - destruct (SetPrefix _ _ _) as [w|] eqn:E; [|done]. injection Hstep as <-.
    split; simpl; [done|]. eapply handles_inv_cells; [|done].
    by eapply SetPrefix_cells.
  - destruct (Log _ _ _ _ _) as [w|] eqn:E; [|done]. injection Hstep as <-.
    split; simpl; [done|]. eapply handles_inv_cells; [|done].
    by eapply Log_cells.
  - destruct (Log_message _ _ _ _) as [w|] eqn:E; [|done]. injection Hstep as <-.
    split; simpl; [done|]. eapply handles_inv_cells; [|done].
    by eapply Log_cells.
  - destruct (call_mutator _ _ _) as [w|] eqn:E; [|done]. injection Hstep as <-.
    split; simpl; [done|]. eapply handles_inv_cells; [|done].
    by eapply call_mutator_cells.
  - destruct (call_Log _ _ _ _ _) as [w|] eqn:E; [|done]. injection Hstep as <-.
    split; simpl; [done|]. eapply handles_inv_cells; [|done].
    by eapply call_Log_cells.
Qed.

Lemma run_wf env calls : ∀ s s', wf s → run env calls s = Some s' → wf s'.
Proof.
  induction calls as [|c calls IH]; intros s s' Hwf Hrun; simpl in Hrun.
  - by injection Hrun as <-.
  - destruct (step env c s) as [s1|] eqn:E; [|done]. simpl in Hrun.
    eapply IH; [|done]. by eapply step_wf.
Qed.

Lemma init_wf objs : wf (init objs).
Proof.
  split; [split; simpl; [done|unfold INT_MAX; lia]|].
  split; simpl; [apply NoDup_nil_2|apply Forall_nil_2].
Qed.

Lemma step_index_inv env c s s' :
  index_inv (logger s) → step env c s = Some s' → index_inv (logger s').
Proof.
  intros Hidx Hstep. destruct c; simpl in Hstep;
    try (destruct (_ : option World) as [w|]; [|done]; by injection Hstep as <-);
    try by injection Hstep as <-.
  - destruct (AddTarget _ _ _) as [r|] eqn:E; [|done]. injection Hstep as <-.
    by eapply AddTarget_index_inv.
  - destruct (DeleteTarget _ _) as [lg|] eqn:E; [|done]. injection Hstep as <-.
    by eapply DeleteTarget_index_inv.
Qed.

Lemma run_index_inv env calls :
  ∀ s s', index_inv (logger s) → run env calls s = Some s' → index_inv (logger s').
Proof.
  induction calls as [|c calls IH]; intros s s' Hidx Hrun; simpl in Hrun.
  - by injection Hrun as <-.
  - destruct (step env c s) as [s1|] eqn:E; [|done]. simpl in Hrun.
    eapply IH; [|done]. by eapply step_index_inv.
Qed.

(** [DeleteTarget] is defined in every state that satisfies the index
    invariant, and never grows the vector. *)
Lemma DeleteTarget_total h lg :
  index_inv lg →
  ∃ lg', DeleteTarget h lg = Some lg' ∧
         (length (Targets lg') ≤ length (Targets lg))%nat.
Proof.
  intros Hinv.
  destruct (list_find_handle h (Targets lg)) as [[Hnot _]|(l1 & l2 & Heq & Hl1 & _)].
  - exists lg. by rewrite DeleteTarget_absent.
  - eexists. rewrite (DeleteTarget_present h lg l1 l2) by done.
    split; [done|]. simpl. rewrite Heq, !length_app. simpl. lia.
Qed.

(** A sequence of registrations and removals runs to completion as long as
    the vector cannot reach [INT_MAX] entries. *)
Lemma run_registrations_total env calls :
  ∀ s, index_inv (logger s) →
       forallb is_registration calls = true →
       Z.of_nat (length (Targets (logger s))) + Z.of_nat (length calls) <= INT_MAX →
       is_Some (run env calls s).
Proof.
  induction calls as [|c calls IH]; intros s Hidx Hreg Hlen; simpl.
  - done.
  - simpl in Hreg. apply andb_true_iff in Hreg as [Hc Hreg].
    simpl length in Hlen.
    destruct c; simpl in Hc; try done; simpl.
    + rewrite AddTarget_append by (done || lia). simpl.
      apply IH; simpl; [|done|rewrite length_app; simpl; lia].
      destruct Hidx as [Hidx Hmax]. split; simpl.
      * rewrite length_app. simpl. lia.
      * lia.
    + destruct (DeleteTarget_total deleteTarget (logger s) Hidx) as (lg' & Hd & Hle).
      rewrite Hd. simpl. apply IH; simpl; [by eapply DeleteTarget_index_inv|done|lia].
Qed.

Lemma filter_other_handle (h : positive) (l : list positive) :
  h ∉ l → filter (λ h' : positive, h' ≠ h) l = l.
Proof.
  induction l as [|x l IH]; intros Hnot; [done|].
  apply not_elem_of_cons in Hnot as [Hne Hnot].
  rewrite filter_cons_True by done. by rewrite IH.
Qed.

(** ** Registration and removal *)

(** C9: the Logger keeps [InsertIndex == Targets.size()] across every
    sequence of calls; within the range of [int] every sequence of
    [AddTarget] and [DeleteTarget] calls runs to completion; [AddTarget]
    increments both sides, inserts at the end and returns the entry it
    inserted; [DeleteTarget] decrements both sides exactly when it erases an
    entry. *)
Theorem InsertIndex_is_size env (calls : list Call) (s : State) :
  index_inv (logger s) →
  (∀ s', run env calls s = Some s' → index_inv (logger s'))
  ∧ (forallb is_registration calls = true →
     Z.of_nat (length (Targets (logger s))) + Z.of_nat (length calls) <= INT_MAX →
     is_Some (run env calls s))
  ∧ (∀ target : ptr,
       Z.of_nat (length (Targets (logger s))) < INT_MAX →
       ∃ (h : handle) lg' w',
         AddTarget target (logger s) (world s) = Some (h, lg', w')
         ∧ Targets lg' = Targets (logger s) ++ [h]
         ∧ InsertIndex lg' = InsertIndex (logger s) + 1
         ∧ cells w' !! h = Some target)
  ∧ (∀ h : handle,
       ∃ lg', DeleteTarget h (logger s) = Some lg'
         ∧ (h ∈ Targets (logger s) →
            S (length (Targets lg')) = length (Targets (logger s))
            ∧ InsertIndex lg' = InsertIndex (logger s) - 1)
         ∧ (h ∉ Targets (logger s) → lg' = logger s)).
Proof.
  intros Hidx. split_and!.
  - intros s'. by apply run_index_inv.
  - by apply run_registrations_total.
  - intros target Hlt. eexists _, _, _.
    rewrite AddTarget_append by done. split_and!; [done..|].
    simpl. apply lookup_insert_eq.
  - intros h.
    destruct (list_find_handle h (Targets (logger s)))
      as [[Hnot _]|(l1 & l2 & Heq & Hl1 & _)].
    + exists (logger s). rewrite DeleteTarget_absent by done.
      split_and!; [done| |done]. intros Hin. by destruct Hnot.
    + eexists. rewrite (DeleteTarget_present h _ l1 l2) by done.
      split_and!; [done| |].
      * intros _. simpl. split; [|done]. rewrite Heq, !length_app. simpl. lia.
      * intros Hnot. exfalso. apply Hnot. rewrite Heq. set_solver.
Qed.

Lemma InsertIndex_is_size_witness :
  index_inv (logger (init main_objects))
  ∧ (∀ s', run main_env [CallAddTarget tmp1; CallAddTarget tmp1;
                         CallDeleteTarget 1%positive; CallDeleteTarget 1%positive]
             (init main_objects) = Some s' →
           index_inv (logger s'))
  ∧ is_Some (run main_env [CallAddTarget tmp1; CallAddTarget tmp1;
                           CallDeleteTarget 1%positive; CallDeleteTarget 1%positive]
               (init main_objects))
  ∧ (∃ (h : handle) lg' w',
       AddTarget tmp2 (logger (init main_objects)) (world (init main_objects))
         = Some (h, lg', w')
       ∧ Targets lg' = [] ++ [h] ∧ InsertIndex lg' = 0 + 1
       ∧ cells w' !! h = Some tmp2).
Proof.
  assert (index_inv (logger (init main_objects))) as Hidx by by_evaluation.
  split; [exact Hidx|].
  destruct (InsertIndex_is_size main_env
              [CallAddTarget tmp1; CallAddTarget tmp1;
               CallDeleteTarget 1%positive; CallDeleteTarget 1%positive]
              (init main_objects) Hidx) as (Hrun & Htotal & Hadd & _).
  split_and!.
  - exact Hrun.
  - apply Htotal; [reflexivity|by_evaluation].
  - apply (Hadd tmp2). by_evaluation.
Defined.

Example main_registered_eq : main_registered = Some registered.
Proof. vm_compute. reflexivity. Qed.

(** C10: every registration creates a handle that differs from all handles
    in the sequence, whatever raw pointer is registered, so the handles in
    the sequence stay pairwise distinct along every run, and [DeleteTarget h]
    removes no entry but the one equal to [h], hence at most one. *)
Theorem handles_pairwise_distinct env (calls : list Call) (s : State) :
  wf s →
  (∀ s', run env calls s = Some s' → NoDup (Targets (logger s')))
  ∧ (∀ target : ptr,
       Z.of_nat (length (Targets (logger s))) < INT_MAX →
       ∃ (h : handle) lg' w',
         AddTarget target (logger s) (world s) = Some (h, lg', w')
         ∧ (h ∉ Targets (logger s))
         ∧ Targets lg' = Targets (logger s) ++ [h]
         ∧ NoDup (Targets lg'))
  ∧ (∀ h : handle,
       ∃ lg', DeleteTarget h (logger s) = Some lg'
         ∧ Targets lg' = filter (λ h' : handle, h' ≠ h) (Targets (logger s))
         ∧ (length (Targets (logger s)) ≤ S (length (Targets lg')))%nat).
Proof.
  intros Hwf. split_and!.
  - intros s' Hrun. by destruct (run_wf env calls s s' Hwf Hrun) as [_ [Hnd _]].
  - intros target Hlt. destruct Hwf as [Hidx Hh].
    pose proof (AddTarget_append target _ (world s) Hidx Hlt) as Hadd.
    pose proof (AddTarget_handles_inv target _ _ _ Hidx Hh Hadd) as [Hnd _].
    eexists _, _, _. split_and!; [exact Hadd| |done|exact Hnd].
    destruct Hh as [_ Hdom]. rewrite Forall_forall in Hdom.
    intros Hin%Hdom. by apply (is_fresh (dom (cells (world s)))).
  - intros h. destruct Hwf as [Hidx [Hnd _]].
    destruct (list_find_handle h (Targets (logger s)))
      as [[Hnot _]|(l1 & l2 & Heq & Hl1 & _)].
    + exists (logger s). rewrite DeleteTarget_absent by done.
      split_and!; [done| |lia]. by rewrite filter_other_handle.
    + eexists. rewrite (DeleteTarget_present h _ l1 l2) by done.
      split_and!; [done| |]; simpl.
      * rewrite Heq in Hnd. apply NoDup_app in Hnd as (_ & _ & Hnd2).
        apply NoDup_cons in Hnd2 as [Hl2 _].
        rewrite Heq, filter_app, filter_cons_False by (intros Hne; by apply Hne).
        by rewrite !filter_other_handle.
      * rewrite Heq, !length_app. simpl. lia.
Qed.

Lemma handles_pairwise_distinct_witness :
  wf registered
  ∧ (∀ s', run main_env [CallAddTarget tmp1; CallLog Failure "x";
                         CallDeleteTarget 2%positive] registered = Some s' →
           NoDup (Targets (logger s')))
  ∧ (∃ (h : handle) lg' w',
       AddTarget tmp1 (logger registered) (world registered) = Some (h, lg', w')
       ∧ (h ∉ Targets (logger registered))
       ∧ Targets lg' = Targets (logger registered) ++ [h]
       ∧ NoDup (Targets lg')).
Proof.
  assert (wf registered) as Hwf by by_evaluation.
  split; [exact Hwf|].
  destruct (handles_pairwise_distinct main_env
              [CallAddTarget tmp1; CallLog Failure "x"; CallDeleteTarget 2%positive]
              registered Hwf) as (Hrun & Hadd & _).
  split; [exact Hrun|]. apply (Hadd tmp1). by_evaluation.
Defined.

(** C4: for every well-formed prior state, [h = AddTarget(t)] followed by
    [DeleteTarget(h)] is defined and gives back the Logger as it was: the
    same handles in the same order, leading to the same targets. *)
Theorem AddTarget_then_DeleteTarget (target : ptr) (s : State) :
  wf s →
  Z.of_nat (length (Targets (logger s))) < INT_MAX →
  ∃ (h : handle) lg1 w1 lg2,
    AddTarget target (logger s) (world s) = Some (h, lg1, w1)
    ∧ DeleteTarget h lg1 = Some lg2
    ∧ lg2 = logger s
    ∧ pointees w1 (Targets lg2) = pointees (world s) (Targets (logger s))
    ∧ objects w1 = objects (world s).
Proof.
  intros [Hidx [Hnd Hdom]] Hlt. rewrite Forall_forall in Hdom.
  assert (fresh (dom (cells (world s))) ∉ Targets (logger s)) as Hfresh.
  { intros Hin%Hdom. by apply (is_fresh (dom (cells (world s)))). }
  eexists _, _, _, _. rewrite AddTarget_append by done.
  split; [done|].
  rewrite (DeleteTarget_first _ _ (Targets (logger s)) []) by done.
  simpl. unfold int_decr.
  assert (in_int (InsertIndex (logger s) + 1 - 1) = true) as ->.
  { destruct Hidx as [Hidx Hmax]. apply in_int_bounds.
    unfold INT_MIN, INT_MAX in *. lia. }
  simpl. split; [done|]. rewrite app_nil_r.
  replace (InsertIndex (logger s) + 1 - 1) with (InsertIndex (logger s)) by lia.
  split_and!; [by destruct (logger s)| |done].
  unfold pointees. apply map_ext_in. intros h' Hh'%list_elem_of_In.
  unfold deref. simpl. apply lookup_insert_ne. by intros <-.
Qed.

Lemma AddTarget_then_DeleteTarget_witness :
  wf registered
  ∧ Z.of_nat (length (Targets (logger registered))) < INT_MAX
  ∧ ∃ (h : handle) lg1 w1 lg2,
      AddTarget tmp2 (logger registered) (world registered) = Some (h, lg1, w1)
      ∧ DeleteTarget h lg1 = Some lg2
      ∧ lg2 = logger registered
      ∧ pointees w1 (Targets lg2)
        = pointees (world registered) (Targets (logger registered))
      ∧ objects w1 = objects (world registered).
Proof.
  assert (wf registered) as Hwf by by_evaluation.
  assert (Z.of_nat (length (Targets (logger registered))) < INT_MAX) as Hlt
    by by_evaluation.
  split_and!; [exact Hwf|exact Hlt|].
  exact (AddTarget_then_DeleteTarget tmp2 registered Hwf Hlt).
Defined.

(** C5: [DeleteTarget h] erases the first entry equal to [h] and nothing
    else; when no entry equals [h] it returns normally and leaves the Logger
    as it is; in a well-formed state a second [DeleteTarget h] changes
    nothing more. *)
Theorem DeleteTarget_first_match_idempotent (h : handle) (s : State) :
  wf s →
  (∀ l1 l2 : list handle,
     Targets (logger s) = l1 ++ h :: l2 → h ∉ l1 →
     DeleteTarget h (logger s) =
       Some {| VerboseLevel := VerboseLevel (logger s);
               InsertIndex := InsertIndex (logger s) - 1;
               Targets := l1 ++ l2 |})
  ∧ (h ∉ Targets (logger s) → DeleteTarget h (logger s) = Some (logger s))
  ∧ (∃ lg1, DeleteTarget h (logger s) = Some lg1
            ∧ (h ∉ Targets lg1)
            ∧ DeleteTarget h lg1 = Some lg1).
Proof.
  intros [Hidx [Hnd _]]. split_and!.
  - intros l1 l2 Heq Hl1. by apply DeleteTarget_present.
  - apply DeleteTarget_absent.
  - destruct (list_find_handle h (Targets (logger s)))
      as [[Hnot _]|(l1 & l2 & Heq & Hl1 & _)].
    + exists (logger s). by rewrite !DeleteTarget_absent.
    + eexists. rewrite (DeleteTarget_present h _ l1 l2) by done.
      assert (h ∉ l1 ++ l2) as Hgone.
      { rewrite Heq in Hnd. apply NoDup_app in Hnd as (_ & _ & Hnd2).
        apply NoDup_cons in Hnd2 as [Hl2 _]. by apply not_elem_of_app. }
      split_and!; [done|done|]. by apply DeleteTarget_absent.
Qed.

Lemma DeleteTarget_first_match_idempotent_witness :
  wf registered
  ∧ DeleteTarget 2%positive (logger registered) =
      Some {| VerboseLevel := -2; InsertIndex := 3 - 1;
              Targets := [1%positive] ++ [3%positive] |}
  ∧ (∃ lg1, DeleteTarget 2%positive (logger registered) = Some lg1
            ∧ (2%positive ∉ Targets lg1)
            ∧ DeleteTarget 2%positive lg1 = Some lg1).
Proof.
  assert (wf registered) as Hwf by by_evaluation.
  split; [exact Hwf|].
  destruct (DeleteTarget_first_match_idempotent 2%positive registered Hwf)
    as (Hfirst & _ & Htwice).
  split; [|exact Htwice].
  apply (Hfirst [1%positive] [3%positive]); [reflexivity|by_evaluation].
Defined.

(** ** Dispatch *)

Lemma renders_same_store env w w' sev msg h e :
  objects w' = objects w → cells w' = cells w →
  renders env w' sev msg h e → renders env w sev msg h e.
Proof.
  intros Ho Hc (p & t & n & Hp & Ht & He). exists p, t, n.
  unfold deref in *. by rewrite <- Ho, <- Hc.
Qed.

Lemma call_Log_defined env p sev msg w t :
  objects w !! p = Some t →
  call_Log env p sev msg w =
    Some {| objects := objects w;
            cells := cells w;
            clock_reads := (Target_Log env t (clock_reads w) sev msg).2;
            output := output w ++
                      [Write (sink_of t) p
                         (Target_Log env t (clock_reads w) sev msg).1] |}.
Proof. intros Ht. unfold call_Log. by rewrite Ht. Qed.

(** The loop of [Logger::Log] over live handles: defined, one event per
    entry in vector order, objects and cells untouched. *)
Lemma Log_loop env sev msg (targets : list positive) :
  ∀ w,
    Forall (λ h : positive, is_Some (p ← deref w h; objects w !! p)) targets →
    ∃ w' evs,
      for_each_target (λ p, call_Log env p sev msg) targets w = Some w'
      ∧ objects w' = objects w ∧ cells w' = cells w
      ∧ output w' = output w ++ evs
      ∧ Forall2 (renders env w sev msg) targets evs.
Proof.
  induction targets as [|h hs IH]; intros w Hlive.
  - exists w, []. simpl. rewrite app_nil_r. by split_and!.
  - apply Forall_cons in Hlive as [Hh Hhs]. simpl.
    destruct (deref w h) as [p|] eqn:Hp; [|by destruct Hh]. simpl in *.
    destruct (objects w !! p) as [t|] eqn:Ht; [|by destruct Hh].
    rewrite (call_Log_defined env p sev msg w t Ht). simpl.
    set (w1 := {| objects := objects w; cells := cells w;
                  clock_reads := _; output := _ |}).
    destruct (IH w1) as (w' & evs & Hrun & Ho & Hc & Hout & Hall); [done|].
    exists w', (Write (sink_of t) p
                  (Target_Log env t (clock_reads w) sev msg).1 :: evs).
    split_and!; [done..| |].
    + rewrite Hout. simpl. by rewrite <- app_assoc.
    + constructor.
      * by exists p, t, (clock_reads w).
      * eapply Forall2_impl; [exact Hall|]. intros h' e'.
        by apply renders_same_store.
Qed.

Lemma Log_accepts env sev msg lg w :
  live lg w →
  VerboseLevel lg <= severity_int sev →
  ∃ w' evs,
    Log env sev msg lg w = Some w'
    ∧ objects w' = objects w ∧ cells w' = cells w
    ∧ output w' = output w ++ evs
    ∧ Forall2 (renders env w sev msg) (Targets lg) evs.
Proof.
  intros Hlive Hle. unfold Log.
  assert ((severity_int sev <? VerboseLevel lg) = false) as -> by (apply Z.ltb_ge; lia).
  by apply Log_loop.
Qed.

Lemma Log_rejects env sev msg lg w :
  severity_int sev < VerboseLevel lg → Log env sev msg lg w = Some w.
Proof.
  intros Hlt. unfold Log.
  by assert ((severity_int sev <? VerboseLevel lg) = true) as -> by (by apply Z.ltb_lt).
Qed.

(** C1: with threshold [V = VerboseLevel], a [Log(severity, msg)] call whose
    ordinal is at least [V] is rendered by every registered Target, once per
    entry and in vector order; a call whose ordinal is below [V] reaches no
    Target and leaves the world as it was. *)
Theorem Log_filters_by_VerboseLevel env (sev : SeverityLevels) (msg : string)
  (lg : Logger) (w : World) :
  live lg w →
  (VerboseLevel lg <= severity_int sev →
     ∃ w' evs,
       Log env sev msg lg w = Some w'
       ∧ output w' = output w ++ evs
       ∧ Forall2 (renders env w sev msg) (Targets lg) evs)
  ∧ (severity_int sev < VerboseLevel lg → Log env sev msg lg w = Some w).
Proof.
  intros Hlive. split.
  - intros Hle.
    destruct (Log_accepts env sev msg lg w Hlive Hle)
      as (w' & evs & HLog & _ & _ & Hout & Hall).
    by exists w', evs.
  - apply Log_rejects.
Qed.

Lemma Log_filters_by_VerboseLevel_witness :
  live (SetVerboseLevel Warning (logger registered)) (world registered)
  ∧ (∃ w' evs,
       Log main_env Error "x" (SetVerboseLevel Warning (logger registered))
         (world registered) = Some w'
       ∧ output w' = output (world registered) ++ evs
       ∧ Forall2 (renders main_env (world registered) Error "x")
           [1%positive; 2%positive; 3%positive] evs)
  ∧ Log main_env Info "x" (SetVerboseLevel Warning (logger registered))
      (world registered) = Some (world registered).
Proof.
  assert (live (SetVerboseLevel Warning (logger registered)) (world registered))
    as Hlive by by_evaluation.
  split; [exact Hlive|].
  destruct (Log_filters_by_VerboseLevel main_env Error "x" _ _ Hlive) as [Hyes _].
  destruct (Log_filters_by_VerboseLevel main_env Info "x" _ _ Hlive) as [_ Hno].
  split; [apply Hyes|apply Hno]; by_evaluation.
Defined.

(** C2, as the code has it: a [Log] call without severity is a call at
    [Unknown], ordinal 5.  It is rendered by every registered Target
    whenever the threshold is at most 5, which covers every threshold set
    through the enumeration overload and every raw integer up to 5; a raw
    integer above 5 filters it out. *)
Theorem Unknown_passes_thresholds_up_to_5 env (msg : string) (lg : Logger)
  (w : World) :
  live lg w →
  Log_message env msg lg w = Log env Unknown msg lg w
  ∧ severity_int Unknown = 5
  ∧ (∀ V : Z, V <= 5 →
       ∃ w' evs,
         Log_message env msg (SetVerboseLevel_int V lg) w = Some w'
         ∧ output w' = output w ++ evs
         ∧ Forall2 (renders env w Unknown msg) (Targets lg) evs)
  ∧ (∀ sev : SeverityLevels,
       ∃ w' evs,
         Log_message env msg (SetVerboseLevel sev lg) w = Some w'
         ∧ output w' = output w ++ evs
         ∧ Forall2 (renders env w Unknown msg) (Targets lg) evs)
  ∧ (∀ V : Z, 5 < V →
       Log_message env msg (SetVerboseLevel_int V lg) w = Some w).
Proof.
  intros Hlive. split_and!; [done..| | |].
  - intros V HV.
    destruct (Log_accepts env Unknown msg (SetVerboseLevel_int V lg) w)
      as (w' & evs & HLog & _ & _ & Hout & Hall); [done|simpl; lia|].
    by exists w', evs.
  - intros sev.
    destruct (Log_accepts env Unknown msg (SetVerboseLevel sev lg) w)
      as (w' & evs & HLog & _ & _ & Hout & Hall);
      [done|destruct sev; simpl; lia|].
    by exists w', evs.
  - intros V HV. apply Log_rejects. simpl. lia.
Qed.

Lemma Unknown_passes_thresholds_up_to_5_witness :
  live (logger registered) (world registered)
  ∧ (∃ w' evs,
       Log_message main_env "msg" (SetVerboseLevel Failure (logger registered))
         (world registered) = Some w'
       ∧ output w' = output (world registered) ++ evs
       ∧ Forall2 (renders main_env (world registered) Unknown "msg")
           (Targets (logger registered)) evs)
  ∧ Log_message main_env "msg" (SetVerboseLevel_int 6 (logger registered))
      (world registered) = Some (world registered).
Proof.
  assert (live (logger registered) (world registered)) as Hlive by by_evaluation.
  split; [exact Hlive|].
  destruct (Unknown_passes_thresholds_up_to_5 main_env "msg" _ _ Hlive)
    as (_ & _ & _ & Henum & Habove).
  split; [apply (Henum Failure)|apply (Habove 6); by_evaluation].
Defined.

(** The raw-integer overload accepts 6, an [int] like any other; three
    targets are registered and live, and the call without severity reaches
    none of them. *)
Lemma Unknown_filtered_at_threshold_6 :
  in_int 6 = true
  ∧ live (logger registered) (world registered)
  ∧ length (Targets (logger registered)) = 3%nat
  ∧ ∃ s',
      run main_env [CallSetVerboseLevel_int 6; CallLog_message "msg"] registered
        = Some s'
      ∧ VerboseLevel (logger s') = 6
      ∧ output (world s') = [].
Proof.
  split_and!; [reflexivity|by_evaluation|reflexivity|].
  eexists. split_and!; [vm_compute; reflexivity|reflexivity..].
Qed.

(** ** Registration order *)

Lemma pointees_with_fresh_cell w target (hs : list positive) :
  Forall (λ h : positive, h ∈ dom (cells w)) hs →
  pointees (with_cell (fresh (dom (cells w))) target w) hs = pointees w hs.
Proof.
  intros Hdom. rewrite Forall_forall in Hdom.
  unfold pointees. apply map_ext_in. intros h Hh%list_elem_of_In.
  unfold deref. simpl. apply lookup_insert_ne. intros <-.
  by apply (is_fresh (dom (cells w))), Hdom.
Qed.

Lemma live_pointees lg w w' :
  objects w' = objects w →
  pointees w' (Targets lg) = pointees w (Targets lg) →
  live lg w → live lg w'.
Proof.
  unfold live, pointees. intros Ho Hp Hlive.
  rewrite Forall_forall in *. intros h Hh.
  assert (deref w' h = deref w h) as ->.
  { apply list_elem_of_lookup in Hh as [i Hi].
    apply (f_equal (λ l, l !! i)) in Hp.
    rewrite !list_lookup_fmap, Hi in Hp. simpl in Hp. by injection Hp. }
  rewrite Ho. by apply Hlive.
Qed.

(** One registration in a well-formed state with live targets. *)
Lemma AddTarget_registers target lg w :
  index_inv lg → handles_inv lg w → live lg w →
  is_Some (objects w !! target) →
  Z.of_nat (length (Targets lg)) < INT_MAX →
  ∃ (h : positive) lg',
    AddTarget target lg w = Some (h, lg', with_cell h target w)
    ∧ h = fresh (dom (cells w))
    ∧ Targets lg' = Targets lg ++ [h]
    ∧ VerboseLevel lg' = VerboseLevel lg
    ∧ index_inv lg' ∧ handles_inv lg' (with_cell h target w)
    ∧ live lg' (with_cell h target w)
    ∧ pointees (with_cell h target w) (Targets lg')
      = pointees w (Targets lg) ++ [Some target].
Proof.
  intros Hidx Hh Hlive Hobj Hlt.
  pose proof (AddTarget_append target lg w Hidx Hlt) as Hadd.
  pose proof (AddTarget_index_inv _ _ _ _ Hidx Hadd) as Hidx'.
  pose proof (AddTarget_handles_inv _ _ _ _ Hidx Hh Hadd) as Hh'.
  eexists _, _. split; [exact Hadd|]. simpl in *.
  assert (pointees (with_cell (fresh (dom (cells w))) target w)
            (Targets lg ++ [fresh (dom (cells w))])
          = pointees w (Targets lg) ++ [Some target]) as Hpts.
  { unfold pointees at 1. rewrite map_app. fold (pointees (with_cell (fresh (dom (cells w))) target w) (Targets lg)).
    rewrite pointees_with_fresh_cell by apply Hh.
    simpl. unfold deref. simpl. by rewrite lookup_insert_eq. }
  split_and!; [done..| |done].
  unfold live in *. simpl. apply Forall_app. split.
  - apply (live_pointees lg w (with_cell (fresh (dom (cells w))) target w));
      [done| |done].
    apply pointees_with_fresh_cell, Hh.
  - apply Forall_singleton. unfold deref. simpl. by rewrite lookup_insert_eq.
Qed.

Lemma run_AddTargets env (ts : list positive) :
  ∀ s,
    wf s → live (logger s) (world s) →
    Forall (λ t : positive, is_Some (objects (world s) !! t)) ts →
    Z.of_nat (length (Targets (logger s))) + Z.of_nat (length ts) <= INT_MAX →
    ∃ s' (hs : list positive),
      run env (map CallAddTarget ts) s = Some s'
      ∧ wf s' ∧ live (logger s') (world s')
      ∧ Targets (logger s') = Targets (logger s) ++ hs
      ∧ VerboseLevel (logger s') = VerboseLevel (logger s)
      ∧ objects (world s') = objects (world s)
      ∧ output (world s') = output (world s)
      ∧ pointees (world s') (Targets (logger s'))
        = pointees (world s) (Targets (logger s)) ++ map Some ts.
Proof.
  induction ts as [|t ts IH]; intros s Hwf Hlive Hobjs Hlen.
  - exists s, []. simpl. rewrite !app_nil_r. by split_and!.
  - apply Forall_cons in Hobjs as [Ht Hts]. simpl length in Hlen.
    destruct Hwf as [Hidx Hh].
    destruct (AddTarget_registers t (logger s) (world s)) as
      (h & lg' & Hadd & _ & HT & HV & Hidx' & Hh' & Hlive' & Hpts);
      [done..|lia|].
    destruct (IH {| logger := lg'; world := with_cell h t (world s) |})
      as (s' & hs & Hrun & Hwf' & Hl' & HT' & HV' & Ho' & Hout' & Hpts');
      [by split|done|done|simpl; rewrite HT, length_app; simpl; lia|].
    exists s', (h :: hs). simpl in *. rewrite Hadd. simpl.
    split_and!; [done..| | | | |].
    + by rewrite HT', HT, <- app_assoc.
    + by rewrite HV'.
    + done.
    + done.
    + by rewrite Hpts', Hpts, <- app_assoc.
Qed.

Lemma renders_targets env w sev msg (hs : list positive) evs :
  Forall2 (renders env w sev msg) hs evs →
  map (λ e, Some (ev_target e)) evs = pointees w hs.
Proof.
  induction 1 as [|h e hs evs (p & t & n & Hp & _ & ->) _ IH]; [done|].
  simpl. by rewrite IH, Hp.
Qed.

(** C3: registering [t1, ..., tN] in this order appends one handle per
    target to the end of the sequence, in the same order, and one accepted
    [Log] call then writes to the targets already registered followed by
    [t1], ..., [tN], in that order. *)
Theorem output_order_is_registration_order env (ts : list ptr)
  (sev : SeverityLevels) (msg : string) (s : State) :
  wf s → live (logger s) (world s) →
  Forall (λ t : ptr, is_Some (objects (world s) !! t)) ts →
  Z.of_nat (length (Targets (logger s))) + Z.of_nat (length ts) <= INT_MAX →
  VerboseLevel (logger s) <= severity_int sev →
  ∃ s' (hs : list handle) w' evs,
    run env (map CallAddTarget ts) s = Some s'
    ∧ Targets (logger s') = Targets (logger s) ++ hs
    ∧ pointees (world s') hs = map Some ts
    ∧ Log env sev msg (logger s') (world s') = Some w'
    ∧ output w' = output (world s) ++ evs
    ∧ Forall2 (renders env (world s') sev msg) (Targets (logger s')) evs
    ∧ map (λ e, Some (ev_target e)) evs
      = pointees (world s) (Targets (logger s)) ++ map Some ts.
Proof.
  intros Hwf Hlive Hobjs Hlen HV.
  destruct (run_AddTargets env ts s Hwf Hlive Hobjs Hlen)
    as (s' & hs & Hrun & Hwf' & Hlive' & HT & HV' & Ho & Hout & Hpts).
  destruct (Log_accepts env sev msg (logger s') (world s') Hlive')
    as (w' & evs & HLog & _ & _ & Hout' & Hall); [by rewrite HV'|].
  exists s', hs, w', evs.
  split_and!; [done|done| |done|by rewrite Hout', Hout|done|].
  - rewrite HT in Hpts. unfold pointees in Hpts. rewrite map_app in Hpts.
    apply app_inj_1 in Hpts as [_ Hhs]; [done|].
    by rewrite !length_map.
  - by rewrite (renders_targets _ _ _ _ _ _ Hall).
Qed.

Lemma output_order_is_registration_order_witness :
  wf (init main_objects)
  ∧ live (logger (init main_objects)) (world (init main_objects))
  ∧ ∃ s' (hs : list handle) w' evs,
      run main_env (map CallAddTarget [tmp3; tmp1; tmp2]) (init main_objects)
        = Some s'
      ∧ Targets (logger s') = [] ++ hs
      ∧ pointees (world s') hs = map Some [tmp3; tmp1; tmp2]
      ∧ Log main_env Failure "All targets" (logger s') (world s') = Some w'
      ∧ output w' = [] ++ evs
      ∧ Forall2 (renders main_env (world s') Failure "All targets")
          (Targets (logger s')) evs
      ∧ map (λ e, Some (ev_target e)) evs = [] ++ map Some [tmp3; tmp1; tmp2].
Proof.
  assert (wf (init main_objects)) as Hwf by by_evaluation.
  assert (live (logger (init main_objects)) (world (init main_objects)))
    as Hlive by by_evaluation.
  split_and!; [exact Hwf|exact Hlive|].
  apply (output_order_is_registration_order main_env [tmp3; tmp1; tmp2]
           Failure "All targets" (init main_objects) Hwf Hlive);
    by_evaluation.
Defined.

(** C7: [AddTarget] does not look for duplicates.  Registering the same raw
    pointer twice yields two different handles to it, both at the end of the
    sequence; removing either one leaves the other registered; and one
    accepted [Log] call writes to that target twice. *)
Theorem same_pointer_registered_twice env (t : ptr) (sev : SeverityLevels)
  (msg : string) (s : State) :
  wf s → live (logger s) (world s) →
  is_Some (objects (world s) !! t) →
  Z.of_nat (length (Targets (logger s))) + 2 <= INT_MAX →
  VerboseLevel (logger s) <= severity_int sev →
  ∃ (h1 h2 : handle) lg1 w1 lg2 w2,
    AddTarget t (logger s) (world s) = Some (h1, lg1, w1)
    ∧ AddTarget t lg1 w1 = Some (h2, lg2, w2)
    ∧ h1 ≠ h2
    ∧ deref w2 h1 = Some t ∧ deref w2 h2 = Some t
    ∧ Targets lg2 = Targets (logger s) ++ [h1; h2]
    ∧ (∃ lg3, DeleteTarget h1 lg2 = Some lg3
              ∧ Targets lg3 = Targets (logger s) ++ [h2])
    ∧ (∃ lg3, DeleteTarget h2 lg2 = Some lg3
              ∧ Targets lg3 = Targets (logger s) ++ [h1])
    ∧ ∃ w3 evs e1 e2,
        Log env sev msg lg2 w2 = Some w3
        ∧ output w3 = output (world s) ++ evs ++ [e1; e2]
        ∧ Forall2 (renders env w2 sev msg) (Targets (logger s)) evs
        ∧ renders env w2 sev msg h1 e1 ∧ renders env w2 sev msg h2 e2
        ∧ ev_target e1 = t ∧ ev_target e2 = t.
Proof.
  intros [Hidx Hh] Hlive Hobj Hlen HV.
  destruct (AddTarget_registers t (logger s) (world s))
    as (h1 & lg1 & Hadd1 & Hh1 & HT1 & HV1 & Hidx1 & Hinv1 & Hlive1 & Hpts1);
    [done..|lia|].
  set (w1 := with_cell h1 t (world s)) in *.
  destruct (AddTarget_registers t lg1 w1)
    as (h2 & lg2 & Hadd2 & Hh2 & HT2 & HV2 & Hidx2 & Hinv2 & Hlive2 & Hpts2);
    [done..|rewrite HT1, length_app; simpl; lia|].
  set (w2 := with_cell h2 t w1) in *.
  assert (h1 ∉ Targets (logger s)) as Hfresh1.
  { destruct Hh as [_ Hdom]. rewrite Forall_forall in Hdom.
    intros Hin%Hdom. rewrite Hh1 in Hin.
    by apply (is_fresh (dom (cells (world s)))). }
  assert (h2 ∉ Targets lg1) as Hfresh2.
  { destruct Hinv1 as [_ Hdom]. rewrite Forall_forall in Hdom.
    intros Hin%Hdom. rewrite Hh2 in Hin. by apply (is_fresh (dom (cells w1))). }
  assert (h1 ≠ h2) as Hne.
  { intros <-. apply Hfresh2. rewrite HT1. set_solver. }
  assert (Targets lg2 = Targets (logger s) ++ [h1; h2]) as HT.
  { by rewrite HT2, HT1, <- app_assoc. }
  assert (deref w2 h1 = Some t) as Hd1.
  { unfold deref. simpl. rewrite lookup_insert_ne by done.
    apply lookup_insert_eq. }
  assert (deref w2 h2 = Some t) as Hd2.
  { unfold deref. simpl. apply lookup_insert_eq. }
  exists h1, h2, lg1, w1, lg2, w2. split_and!; [done..| | |].
  - eexists. rewrite (DeleteTarget_present h1 lg2 (Targets (logger s)) [h2]);
      [by split| | |]; done.
  - eexists.
    rewrite (DeleteTarget_present h2 lg2 (Targets (logger s) ++ [h1]) []);
      [split; [done|simpl; by rewrite app_nil_r]|done| |].
    + by rewrite HT, <- app_assoc.
    + by rewrite <- HT1.
  - destruct (Log_accepts env sev msg lg2 w2 Hlive2)
      as (w3 & evs & HLog & _ & _ & Hout & Hall); [by rewrite HV2, HV1|].
    rewrite HT in Hall.
    apply Forall2_app_inv_l in Hall as (evs1 & evs2 & Hall1 & Hall2 & ->).
    apply Forall2_cons_inv_l in Hall2 as (e1 & evs3 & Hr1 & Hall3 & ->).
    apply Forall2_cons_inv_l in Hall3 as (e2 & evs4 & Hr2 & Hall4 & ->).
    apply Forall2_nil_inv_l in Hall4 as ->.
    exists w3, evs1, e1, e2. split_and!; [done..| |].
    + destruct Hr1 as (p & t' & n & Hp & _ & ->). simpl.
      apply (inj Some). by rewrite <- Hp, <- Hd1.
    + destruct Hr2 as (p & t' & n & Hp & _ & ->). simpl.
      apply (inj Some). by rewrite <- Hp, <- Hd2.
Qed.

Lemma same_pointer_registered_twice_witness :
  wf (init main_objects)
  ∧ live (logger (init main_objects)) (world (init main_objects))
  ∧ ∃ (h1 h2 : handle) lg1 w1 lg2 w2,
      AddTarget tmp1 (logger (init main_objects)) (world (init main_objects))
        = Some (h1, lg1, w1)
      ∧ AddTarget tmp1 lg1 w1 = Some (h2, lg2, w2)
      ∧ h1 ≠ h2
      ∧ Targets lg2 = [h1; h2]
      ∧ ∃ w3 e1 e2,
          Log main_env Failure "x" lg2 w2 = Some w3
          ∧ output w3 = [e1; e2]
          ∧ ev_target e1 = tmp1 ∧ ev_target e2 = tmp1.
Proof.
  assert (wf (init main_objects)) as Hwf by by_evaluation.
  assert (live (logger (init main_objects)) (world (init main_objects)))
    as Hlive by by_evaluation.
  split_and!; [exact Hwf|exact Hlive|].
  destruct (same_pointer_registered_twice main_env tmp1 Failure "x"
              (init main_objects) Hwf Hlive)
    as (h1 & h2 & lg1 & w1 & lg2 & w2 & Ha1 & Ha2 & Hne & _ & _ & HT & _ & _ &
        w3 & evs & e1 & e2 & HLog & Hout & Hall & _ & _ & He1 & He2);
    [by_evaluation..|].
  exists h1, h2, lg1, w1, lg2, w2. split_and!; [done..|].
  exists w3, e1, e2. split_and!; [done| |done..].
  simpl in Hall. inversion Hall; subst. exact Hout.
Defined.

(** ** Rendering *)

Lemma append_nil_r (s : string) : s +:+ "" = s.
Proof.
  induction s as [|a s IH]; [done|].
  change (String a (s +:+ "") = String a s). by f_equal.
Qed.

Lemma append_assoc (s1 s2 s3 : string) :
  (s1 +:+ s2) +:+ s3 = s1 +:+ (s2 +:+ s3).
Proof.
  induction s1 as [|a s1 IH]; [done|].
  change (String a ((s1 +:+ s2) +:+ s3) = String a (s1 +:+ (s2 +:+ s3))).
  by f_equal.
Qed.

(** The clock is read once when the timestamp is enabled, never otherwise. *)
Lemma Target_Log_reads env this reads sev msg :
  (Target_Log env this reads sev msg).2 = if AddTime this then S reads else reads.
Proof.
  unfold Target_Log, ConsoleTarget_Log, FileTarget_Log, when, put, put_time.
  destruct this as [k pre col whole path app time tid]; simpl.
  destruct k, (nonempty pre), col, whole, time, tid; reflexivity.
Qed.

(** The line the code writes does not follow the specification's wording in
    whole-message-colour mode: nothing separates the colour code from the
    timestamp, and the reset code comes after the newline. *)
Lemma ConsoleTarget_Log_not_space_separated :
  (ConsoleTarget_Log main_env (ConsoleTarget true true true true) 0 Failure "x").1
    = ESC +:+ "[31m2024-05-17 10:15:00 [ FAILURE ] [140211] x" +:+ NL
      +:+ ESC +:+ "[0m"
  ∧ spec_line main_env (ConsoleTarget true true true true) 0 Failure "x"
    = ESC +:+ "[31m 2024-05-17 10:15:00 [ FAILURE ] [140211] x " +:+ ESC +:+ "[0m"
  ∧ (ConsoleTarget_Log main_env (ConsoleTarget true true true true) 0 Failure "x").1
    ≠ spec_line main_env (ConsoleTarget true true true true) 0 Failure "x"
  ∧ (ConsoleTarget_Log main_env (ConsoleTarget true true true true) 0 Failure "x").1
    ≠ spec_line main_env (ConsoleTarget true true true true) 0 Failure "x" +:+ NL.
Proof. vm_compute. split_and!; [reflexivity|reflexivity|discriminate|discriminate]. Qed.

(** C6, as the code has it: the console line is the concatenation, left to
    right, of the prefix and a space (when the prefix is not empty), the
    colour code (when colours are enabled for the whole message; no space
    follows it), the timestamp and a space (when enabled), the severity tag
    and a space (always; the tag sits between its colour code and the reset
    code when colours are enabled for the tag only), the thread id in
    brackets and a space (when enabled), the message and a newline, and the
    reset code (when colours are enabled for the whole message).  Unless
    colours cover the whole message, this is the enabled segments separated
    by single spaces, followed by the newline. *)
Theorem ConsoleTarget_Log_composition env (this : Target) (reads : nat)
  (sev : SeverityLevels) (msg : string) :
  (ConsoleTarget_Log env this reads sev msg).1 =
    (if nonempty (Prefix this) then Prefix this +:+ SP else "")
    +:+ (if AddColors this && WholeMessageColor this
         then SeverityLevelToColor sev else "")
    +:+ (if AddTime this then UTCTime env reads +:+ SP else "")
    +:+ (if AddColors this && negb (WholeMessageColor this)
         then SeverityLevelToColor sev +:+ SeverityLevelToText sev
              +:+ SeverityLevelToColor_reset
         else SeverityLevelToText sev)
    +:+ SP
    +:+ (if AddThreadID this then "[" +:+ this_thread_id env +:+ "]" +:+ SP else "")
    +:+ msg +:+ NL
    +:+ (if AddColors this && WholeMessageColor this
         then SeverityLevelToColor_reset else "")
  ∧ (AddColors this && WholeMessageColor this = false →
     (ConsoleTarget_Log env this reads sev msg).1
       = spec_line env this reads sev msg +:+ NL).
Proof.
  destruct this as [k pre col whole path app time tid].
  unfold spec_line, spec_segments, ConsoleTarget_Log, when, put, put_time.
  cbn [Prefix AddColors WholeMessageColor AddTime AddThreadID fst snd].
  split.
  - destruct (nonempty pre), col, whole, time, tid;
      cbn [andb negb fst snd];
      rewrite ?append_assoc, ?append_nil_r; reflexivity.
  - intros Hwhole.
    destruct (nonempty pre), col, whole, time, tid; try discriminate Hwhole;
      cbn [andb negb fst snd List.app String.concat];
      rewrite ?append_assoc, ?append_nil_r; reflexivity.
Qed.

Lemma ConsoleTarget_Log_composition_witness :
  AddColors (ConsoleTarget true false true true)
    && WholeMessageColor (ConsoleTarget true false true true) = false
  ∧ (ConsoleTarget_Log main_env (ConsoleTarget true false true true) 0 Warning "x").1
    = spec_line main_env (ConsoleTarget true false true true) 0 Warning "x" +:+ NL.
Proof.
  assert (AddColors (ConsoleTarget true false true true)
            && WholeMessageColor (ConsoleTarget true false true true) = false)
    as Hwhole by reflexivity.
  split; [exact Hwhole|].
  exact (proj2 (ConsoleTarget_Log_composition main_env
                  (ConsoleTarget true false true true) 0 Warning "x") Hwhole).
Defined.

(** ** Independence of the targets *)

Lemma call_mutator_defined f p w t :
  objects w !! p = Some t →
  call_mutator f p w =
    Some {| objects := <[p := f t]> (objects w);
            cells := cells w;
            clock_reads := clock_reads w;
            output := output w |}.
Proof. intros Ht. unfold call_mutator. by rewrite Ht. Qed.

Lemma call_Log_same_except env p1 p sev msg w w' w1 :
  same_except p1 w w' →
  call_Log env p sev msg w = Some w1 →
  ∃ w1', call_Log env p sev msg w' = Some w1' ∧ same_except p1 w1 w1'.
Proof.
  intros (Hc & Hr & Ho & [prefix Hp1] & Hout) Hcall.
  unfold call_Log in Hcall.
  destruct (objects w !! p) as [t|] eqn:Ht; [|done].
  injection Hcall as <-.
  destruct (decide (p = p1)) as [->|Hne].
  - rewrite Ht in Hp1. simpl in Hp1.
    eexists. rewrite (call_Log_defined env p1 sev msg w' _ Hp1).
    split; [done|]. unfold same_except, output_of_others in *. simpl.
    split_and!; [done| |done| |].
    + by rewrite !Target_Log_reads, Hr.
    + exists prefix. by rewrite Hp1, Ht.
    + rewrite !filter_app, Hout. f_equal.
      rewrite !filter_cons_False; [done|simpl; tauto..].
  - pose proof (Ho p Hne) as Hsame. rewrite Ht in Hsame.
    eexists. rewrite (call_Log_defined env p sev msg w' _ Hsame).
    split; [done|]. unfold same_except, output_of_others in *. simpl.
    split_and!; [done| |done| |].
    + by rewrite Hr.
    + by exists prefix.
    + by rewrite !filter_app, Hout, Hr.
Qed.

Lemma Log_loop_same_except env p1 sev msg (targets : list positive) :
  ∀ w w' w1,
    same_except p1 w w' →
    for_each_target (λ p, call_Log env p sev msg) targets w = Some w1 →
    ∃ w1', for_each_target (λ p, call_Log env p sev msg) targets w' = Some w1'
           ∧ same_except p1 w1 w1'.
Proof.
  induction targets as [|h hs IH]; intros w w' w1 Hsame Hrun; simpl in *.
  - injection Hrun as <-. by exists w'.
  - assert (deref w' h = deref w h) as ->.
    { unfold deref. by destruct Hsame as [-> _]. }
    destruct (deref w h) as [p|]; [|done]. simpl in *.
    destruct (call_Log env p sev msg w) as [w2|] eqn:Hcall; [|done].
    destruct (call_Log_same_except _ _ _ _ _ _ _ _ Hsame Hcall)
      as (w2' & -> & Hsame2).
    simpl in *. by eapply IH.
Qed.

(** C8: setting a prefix on one Target leaves the configuration of every
    other Target as it was, and every later render, whether called on
    another Target directly or through [Logger::Log], writes for the other
    Targets exactly what it would have written without the change. *)
Theorem Target_SetPrefix_is_local env (p1 p2 : ptr) (prefix : string)
  (sev : SeverityLevels) (msg : string) (lg : Logger) (w : World) :
  p1 ≠ p2 →
  is_Some (objects w !! p1) →
  ∃ w',
    call_mutator (Target_SetPrefix prefix) p1 w = Some w'
    ∧ objects w' !! p1 = Target_SetPrefix prefix <$> objects w !! p1
    ∧ objects w' !! p2 = objects w !! p2
    ∧ output <$> call_Log env p2 sev msg w' = output <$> call_Log env p2 sev msg w
    ∧ (∀ w1, Log env sev msg lg w = Some w1 →
         ∃ w1', Log env sev msg lg w' = Some w1'
                ∧ output_of_others p1 w1' = output_of_others p1 w1).
Proof.
  intros Hne [t Ht]. rewrite (call_mutator_defined _ _ _ _ Ht).
  eexists. split; [done|]. simpl.
  set (w' := {| objects := _; cells := _; clock_reads := _; output := _ |}).
  assert (same_except p1 w w') as Hsame.
  { unfold same_except, output_of_others. simpl. split_and!; [done..| | |done].
    - intros q Hq. by apply lookup_insert_ne.
    - exists prefix. by rewrite lookup_insert_eq, Ht. }
  split_and!.
  - by rewrite lookup_insert_eq, Ht.
  - by apply lookup_insert_ne.
  - unfold call_Log. simpl. rewrite lookup_insert_ne by done.
    by destruct (objects w !! p2).
  - intros w1 HLog. unfold Log in *.
    destruct (severity_int sev <? VerboseLevel lg).
    + injection HLog as <-. exists w'. split; [done|]. apply Hsame.
    + destruct (Log_loop_same_except _ _ _ _ _ _ _ _ Hsame HLog)
        as (w1' & Hrun & Hsame1).
      exists w1'. split; [done|]. apply Hsame1.
Qed.

Lemma Target_SetPrefix_is_local_witness :
  tmp1 ≠ tmp2
  ∧ is_Some (objects (world registered) !! tmp1)
  ∧ ∃ w',
      call_mutator (Target_SetPrefix "[Target 1]") tmp1 (world registered) = Some w'
      ∧ objects w' !! tmp2 = objects (world registered) !! tmp2
      ∧ output <$> call_Log main_env tmp2 Failure "Only console target 2!" w'
        = output <$> call_Log main_env tmp2 Failure "Only console target 2!"
                       (world registered)
      ∧ (∀ w1, Log main_env Failure "All targets" (logger registered)
                 (world registered) = Some w1 →
           ∃ w1', Log main_env Failure "All targets" (logger registered) w'
                    = Some w1'
                  ∧ output_of_others tmp1 w1' = output_of_others tmp1 w1).
Proof.
  assert (tmp1 ≠ tmp2) as Hne by by_evaluation.
  assert (is_Some (objects (world registered) !! tmp1)) as Hobj by by_evaluation.
  split_and!; [exact Hne|exact Hobj|].
  destruct (Target_SetPrefix_is_local main_env tmp1 tmp2 "[Target 1]" Failure
              "Only console target 2!" (logger registered) (world registered)
              Hne Hobj) as (w' & Hset & _ & Hcfg & Hdirect & _).
  destruct (Target_SetPrefix_is_local main_env tmp1 tmp2 "[Target 1]" Failure
              "All targets" (logger registered) (world registered)
              Hne Hobj) as (w'' & Hset' & _ & _ & _ & HLog).
  rewrite Hset in Hset'. injection Hset' as <-.
  exists w'. by split_and!.
Defined.

(** ** More on rendering *)

Lemma append_nil_l (s : string) : "" +:+ s = s.
Proof. reflexivity. Qed.

(** Normalises concatenations of strings. *)
Ltac string_norm := rewrite ?append_assoc, ?append_nil_r, ?append_nil_l.

(** Runs the stream operations once the switches are known. *)
Ltac render_norm :=
  cbv [when put put_time fst snd andb negb List.app String.concat];
  string_norm.

(** X1: a console target whose colours are switched off writes exactly what a
    file target with the same settings writes, and reads the clock as
    often; that line is the non-empty prefix, the timestamp, the severity
    tag, the bracketed thread id and the message, separated by single spaces
    and ended by a newline. *)
Theorem uncoloured_console_line_is_file_line env (this : Target) (reads : nat)
  (sev : SeverityLevels) (msg : string) :
  ConsoleTarget_Log env (Target_DisableColors this) reads sev msg
    = FileTarget_Log env this reads sev msg
  ∧ (∀ whole : bool,
       ConsoleTarget_Log env (Target_EnableColors false whole this) reads sev msg
         = FileTarget_Log env this reads sev msg)
  ∧ (FileTarget_Log env this reads sev msg).1
    = String.concat SP (plain_segments env this reads sev msg) +:+ NL.
Proof.
  destruct this as [k pre col whole path app time tid].
  unfold ConsoleTarget_Log, FileTarget_Log, plain_segments.
  cbn [Target_DisableColors Target_EnableColors kind Prefix AddColors
       WholeMessageColor AddTime AddThreadID].
  split_and!.
  - destruct (nonempty pre), whole, time, tid; reflexivity.
  - intros whole'. destruct (nonempty pre), whole', time, tid; reflexivity.
  - destruct (nonempty pre), time, tid; render_norm; reflexivity.
Qed.

(** X2: the settings that belong to the other kind of target are inert: colour
    switches never change what a file target writes, and the file path and
    the append switch never change what any target writes. *)
Theorem inert_settings_do_not_change_the_line env (this : Target) (reads : nat)
  (sev : SeverityLevels) (msg : string) :
  (kind this = FileKind →
     (∀ enable whole : bool,
        Target_Log env (Target_EnableColors enable whole this) reads sev msg
          = Target_Log env this reads sev msg)
     ∧ Target_Log env (Target_DisableColors this) reads sev msg
       = Target_Log env this reads sev msg)
  ∧ (∀ path : string,
       Target_Log env (Target_ChangeFilePath path this) reads sev msg
         = Target_Log env this reads sev msg)
  ∧ (∀ append : bool,
       Target_Log env (Target_AppendToLogFile append this) reads sev msg
         = Target_Log env this reads sev msg).
Proof.
  destruct this as [k pre col whole path app time tid]. split_and!.
  - simpl. intros ->. by split.
  - intros path'. by destruct k.
  - intros append. by destruct k.
Qed.

Lemma inert_settings_do_not_change_the_line_witness :
  kind (FileTarget "LogFile.log" false true true) = FileKind
  ∧ Target_Log main_env
      (Target_EnableColors true false (FileTarget "LogFile.log" false true true))
      0 Error "x"
    = Target_Log main_env (FileTarget "LogFile.log" false true true) 0 Error "x".
Proof.
  assert (kind (FileTarget "LogFile.log" false true true) = FileKind) as Hk
    by reflexivity.
  split; [exact Hk|].
  destruct (inert_settings_do_not_change_the_line main_env
              (FileTarget "LogFile.log" false true true) 0 Error "x")
    as [Hfile _].
  destruct (Hfile Hk) as [Henable _]. apply Henable.
Defined.

(** X3: the message reaches the stream verbatim and ends its line: every
    rendering is a head that does not depend on the message, the message, a
    newline, and a tail that is empty or, for a console target, the colour
    reset code. *)
Theorem message_is_written_verbatim env (this : Target) (reads : nat)
  (sev : SeverityLevels) :
  ∃ head tail : string,
    (∀ msg : string,
       (Target_Log env this reads sev msg).1 = head +:+ msg +:+ NL +:+ tail)
    ∧ (tail = "" ∨ (kind this = ConsoleKind ∧ tail = SeverityLevelToColor_reset)).
Proof.
  pose (coloured := match kind this with
                    | ConsoleKind => AddColors this
                    | FileKind => false
                    end).
  exists ((if nonempty (Prefix this) then Prefix this +:+ SP else "")
          +:+ (if coloured && WholeMessageColor this
               then SeverityLevelToColor sev else "")
          +:+ (if AddTime this then UTCTime env reads +:+ SP else "")
          +:+ (if coloured && negb (WholeMessageColor this)
               then SeverityLevelToColor sev +:+ SeverityLevelToText sev
                    +:+ SeverityLevelToColor_reset
               else SeverityLevelToText sev)
          +:+ SP
          +:+ (if AddThreadID this
               then "[" +:+ this_thread_id env +:+ "]" +:+ SP else "")),
         (if coloured && WholeMessageColor this
          then SeverityLevelToColor_reset else "").
  subst coloured.
  destruct this as [k pre col whole path app time tid].
  unfold Target_Log, ConsoleTarget_Log, FileTarget_Log.
  cbn [kind Prefix AddColors WholeMessageColor AddTime AddThreadID].
  split.
  - intros msg.
    destruct k, (nonempty pre), col, whole, time, tid;
      render_norm; reflexivity.
  - destruct k, col, whole; cbn [andb]; auto.
Qed.

(** X4: the severity tags all have the same width, eleven characters, and
    differ pairwise, as do the ordinals, which lie between -2 and 5; the
    colour codes tell all severities apart except [Debug] and [Verbose],
    which share one. *)
Theorem severity_tags_are_aligned_and_distinct :
  (∀ s, String.length (SeverityLevelToText s) = 11%nat)
  ∧ (∀ s1 s2, SeverityLevelToText s1 = SeverityLevelToText s2 → s1 = s2)
  ∧ (∀ s, -2 <= severity_int s <= 5)
  ∧ (∀ s1 s2, severity_int s1 = severity_int s2 → s1 = s2)
  ∧ (∀ s1 s2, SeverityLevelToColor s1 = SeverityLevelToColor s2 →
       s1 = s2 ∨ (s1 = Debug ∧ s2 = Verbose) ∨ (s1 = Verbose ∧ s2 = Debug))
  ∧ SeverityLevelToColor Debug = SeverityLevelToColor Verbose.
Proof.
  split_and!.
  - by intros [].
  - intros [] []; vm_compute; by intros.
  - intros []; simpl; lia.
  - intros [] []; simpl; by intros.
  - intros [] []; vm_compute; intros; try discriminate; auto.
  - reflexivity.
Qed.

(** X5: a segment that is switched off takes nothing from the environment: the
    clock is read once when the timestamp is on and not at all when it is
    off, a line without timestamp does not depend on the clock, and a line
    without thread id does not depend on the calling thread. *)
Theorem disabled_segments_ignore_the_environment env env' (this : Target)
  (reads reads' : nat) (sev : SeverityLevels) (msg : string) :
  (Target_Log env this reads sev msg).2 = (if AddTime this then S reads else reads)
  ∧ (AddTime this = false →
     this_thread_id env = this_thread_id env' →
     (Target_Log env this reads sev msg).1 = (Target_Log env' this reads' sev msg).1)
  ∧ (AddThreadID this = false →
     UTCTime env reads = UTCTime env' reads' →
     (Target_Log env this reads sev msg).1 = (Target_Log env' this reads' sev msg).1).
Proof.
  split; [apply Target_Log_reads|].
  destruct this as [k pre col whole path app time tid].
  destruct env as [clock thread], env' as [clock' thread'].
  unfold Target_Log, ConsoleTarget_Log, FileTarget_Log.
  cbn [kind Prefix AddColors WholeMessageColor AddTime AddThreadID
       UTCTime this_thread_id].
  split.
  - intros -> ->.
    destruct k, (nonempty pre), col, whole, tid; reflexivity.
  - intros -> Hclock.
    destruct k, (nonempty pre), col, whole, time;
      cbv [when put put_time fst snd andb negb UTCTime]; by rewrite ?Hclock.
Qed.

Lemma disabled_segments_ignore_the_environment_witness :
  AddTime (ConsoleTarget true true false true) = false
  ∧ this_thread_id main_env
    = this_thread_id {| UTCTime := λ _, "later"; this_thread_id := "140211" |}
  ∧ (Target_Log main_env (ConsoleTarget true true false true) 0 Info "x").1
    = (Target_Log {| UTCTime := λ _, "later"; this_thread_id := "140211" |}
         (ConsoleTarget true true false true) 7 Info "x").1.
Proof.
  assert (AddTime (ConsoleTarget true true false true) = false) as Htime
    by reflexivity.
  assert (this_thread_id main_env
          = this_thread_id {| UTCTime := λ _, "later"; this_thread_id := "140211" |})
    as Hthread by reflexivity.
  split_and!; [exact Htime|exact Hthread|].
  destruct (disabled_segments_ignore_the_environment main_env
              {| UTCTime := λ _, "later"; this_thread_id := "140211" |}
              (ConsoleTarget true true false true) 0 7 Info "x")
    as (_ & Hclock & _).
  exact (Hclock Htime Hthread).
Defined.

(** A non-empty prefix opens the line, followed by one space. *)
Lemma Target_Log_starts_with_prefix env this reads sev msg :
  nonempty (Prefix this) = true →
  ∃ rest, (Target_Log env this reads sev msg).1 = Prefix this +:+ SP +:+ rest.
Proof.
  destruct this as [k pre col whole path app time tid].
  unfold Target_Log, ConsoleTarget_Log, FileTarget_Log.
  cbn [kind Prefix AddColors WholeMessageColor AddTime AddThreadID].
  intros ->.
  destruct k, col, whole, time, tid; eexists;
    cbv [when put put_time fst snd andb negb]; rewrite ?append_assoc;
    reflexivity.
Qed.

(** ** Removing several handles *)

Lemma DeleteTarget_filter h lg :
  index_inv lg → NoDup (Targets lg) →
  ∃ lg', DeleteTarget h lg = Some lg'
         ∧ Targets lg' = filter (λ h' : positive, h' ≠ h) (Targets lg)
         ∧ VerboseLevel lg' = VerboseLevel lg
         ∧ index_inv lg'.
Proof.
  intros Hidx Hnd.
  destruct (list_find_handle h (Targets lg)) as [[Hnot _]|(l1 & l2 & Heq & Hl1 & _)].
  - exists lg. rewrite DeleteTarget_absent by done.
    split_and!; [done| |done..]. by rewrite filter_other_handle.
  - pose proof (DeleteTarget_present h lg l1 l2 Hidx Heq Hl1) as Hdel.
    eexists. split; [exact Hdel|]. split_and!; [|done|by eapply DeleteTarget_index_inv].
    simpl. rewrite Heq in Hnd. apply NoDup_app in Hnd as (_ & _ & Hnd2).
    apply NoDup_cons in Hnd2 as [Hl2 _].
    rewrite Heq, filter_app, filter_cons_False by (intros Hne; by apply Hne).
    by rewrite !filter_other_handle.
Qed.

Lemma filter_keeps_all (P : positive → Prop) `{∀ x, Decision (P x)}
  (l : list positive) :
  (∀ x, x ∈ l → P x) → filter P l = l.
Proof.
  induction l as [|x l IH]; intros Hall; [done|].
  rewrite filter_cons, decide_True by (apply Hall; left).
  f_equal. apply IH. intros y Hy. apply Hall. by right.
Qed.

Lemma filter_not_in_cons (h : positive) (ds l : list positive) :
  filter (λ x : positive, x ∉ ds) (filter (λ x : positive, x ≠ h) l)
  = filter (λ x : positive, x ∉ h :: ds) l.
Proof.
  induction l as [|x l IH]; [done|].
  destruct (decide (x = h)) as [->|Hne].
  - rewrite (filter_cons_False (λ x : positive, x ≠ h)) by (intros Hne; by apply Hne).
    rewrite (filter_cons_False (λ x : positive, x ∉ h :: ds)); [done|].
    intros Hn. apply Hn. left.
  - rewrite (filter_cons_True (λ x : positive, x ≠ h)) by done.
    destruct (decide (x ∈ ds)) as [Hin|Hnin].
    + rewrite (filter_cons_False (λ x : positive, x ∉ ds)) by (intros Hn; by apply Hn).
      rewrite (filter_cons_False (λ x : positive, x ∉ h :: ds)); [done|].
      intros Hn. apply Hn. by right.
    + rewrite (filter_cons_True (λ x : positive, x ∉ ds)) by done.
      rewrite (filter_cons_True (λ x : positive, x ∉ h :: ds)); [by rewrite IH|].
      by intros [?|?]%elem_of_cons.
Qed.

Lemma run_DeleteTargets env (ds : list handle) (s : State) :
  wf s →
  ∃ s',
    run env (map CallDeleteTarget ds) s = Some s'
    ∧ Targets (logger s') = filter (λ h : handle, h ∉ ds) (Targets (logger s))
    ∧ InsertIndex (logger s') = Z.of_nat (length (Targets (logger s')))
    ∧ VerboseLevel (logger s') = VerboseLevel (logger s)
    ∧ world s' = world s.
Proof.
  revert s. induction ds as [|h ds IH]; intros s Hwf.
  - exists s. simpl. destruct Hwf as [[Hidx _] _]. split_and!; [done| |done..].
    symmetry. apply filter_keeps_all. intros x _. apply not_elem_of_nil.
  - destruct Hwf as [Hidx [Hnd Hdom]].
    destruct (DeleteTarget_filter h (logger s) Hidx Hnd)
      as (lg' & Hdel & HT & HV & Hidx').
    destruct (IH {| logger := lg'; world := world s |})
      as (s' & Hrun & HT' & HI' & HV' & Hw').
    { split; [done|]. by eapply DeleteTarget_handles_inv. }
    exists s'. simpl in *. rewrite Hdel. simpl.
    split_and!; [done| |done|by rewrite HV'|done].
    by rewrite HT', HT, filter_not_in_cons.
Qed.

(** X6: deleting a list of handles, in any order, with repetitions and with
    handles the Logger does not know, is always defined in a well-formed
    state: exactly the entries whose handle is in the list disappear, the
    others keep their order, the insertion index stays the size of the
    vector, and neither the threshold nor any target is touched. *)
Theorem DeleteTarget_sequence env (ds : list handle) (s : State) :
  wf s →
  ∃ s',
    run env (map CallDeleteTarget ds) s = Some s'
    ∧ Targets (logger s') = filter (λ h : handle, h ∉ ds) (Targets (logger s))
    ∧ InsertIndex (logger s') = Z.of_nat (length (Targets (logger s')))
    ∧ VerboseLevel (logger s') = VerboseLevel (logger s)
    ∧ world s' = world s.
Proof. apply run_DeleteTargets. Qed.

Lemma filter_drops_all (P : positive → Prop) `{∀ x, Decision (P x)}
  (l : list positive) :
  (∀ x, x ∈ l → ¬ P x) → filter P l = [].
Proof.
  induction l as [|x l IH]; intros Hall; [done|].
  rewrite filter_cons, decide_False by (apply Hall; left).
  apply IH. intros y Hy. apply Hall. by right.
Qed.

Lemma run_AddTargets_handles env (ts : list positive) :
  ∀ s,
    wf s →
    Z.of_nat (length (Targets (logger s))) + Z.of_nat (length ts) <= INT_MAX →
    ∃ s' (hs : list positive),
      run env (map CallAddTarget ts) s = Some s'
      ∧ wf s'
      ∧ Targets (logger s') = Targets (logger s) ++ hs
      ∧ length hs = length ts
      ∧ VerboseLevel (logger s') = VerboseLevel (logger s)
      ∧ objects (world s') = objects (world s)
      ∧ output (world s') = output (world s).
Proof.
  induction ts as [|t ts IH]; intros s Hwf Hlen.
  - exists s, []. simpl. rewrite app_nil_r. by split_and!.
  - simpl length in Hlen. destruct Hwf as [Hidx Hh].
    assert (Z.of_nat (length (Targets (logger s))) < INT_MAX) as Hlt by lia.
    pose proof (AddTarget_append t (logger s) (world s) Hidx Hlt) as Hadd.
    pose proof (AddTarget_index_inv _ _ _ _ Hidx Hadd) as Hidx'.
    pose proof (AddTarget_handles_inv _ _ _ _ Hidx Hh Hadd) as Hh'.
    simpl in Hidx', Hh'.
    set (h := fresh (dom (cells (world s)))) in *.
    destruct (IH {| logger := {| VerboseLevel := VerboseLevel (logger s);
                                 InsertIndex := InsertIndex (logger s) + 1;
                                 Targets := Targets (logger s) ++ [h] |};
                    world := {| objects := objects (world s);
                                cells := <[h := t]> (cells (world s));
                                clock_reads := clock_reads (world s);
                                output := output (world s) |} |})
      as (s' & hs & Hrun & Hwf' & HT & Hlen' & HV & Ho & Hout).
    { by split. }
    { simpl. rewrite length_app. simpl. lia. }
    exists s', (h :: hs). simpl in *. rewrite Hadd. simpl.
    split_and!; [done|done| |by rewrite Hlen'|done..].
    by rewrite HT, <- app_assoc.
Qed.

(** X7: registering any number of targets and then deleting every handle that
    was returned, in any order and even repeatedly, gives back the Logger as
    it was before the first registration. *)
Theorem register_then_delete_all_restores env (ts : list ptr) (s : State) :
  wf s →
  Z.of_nat (length (Targets (logger s))) + Z.of_nat (length ts) <= INT_MAX →
  ∃ s1 (hs : list handle),
    run env (map CallAddTarget ts) s = Some s1
    ∧ Targets (logger s1) = Targets (logger s) ++ hs
    ∧ length hs = length ts
    ∧ ∀ ds : list handle,
        (∀ h, h ∈ ds ↔ h ∈ hs) →
        ∃ s2, run env (map CallDeleteTarget ds) s1 = Some s2
              ∧ logger s2 = logger s.
Proof.
  intros Hwf Hlen.
  destruct (run_AddTargets_handles env ts s Hwf Hlen)
    as (s1 & hs & Hrun & Hwf1 & HT & Hlen' & HV & _ & _).
  exists s1, hs. split_and!; [done..|].
  intros ds Hds.
  destruct (run_DeleteTargets env ds s1 Hwf1)
    as (s2 & Hrun2 & HT2 & HI2 & HV2 & _).
  exists s2. split; [done|].
  assert (Targets (logger s2) = Targets (logger s)) as HTs.
  { rewrite HT2, HT, filter_app.
    destruct Hwf1 as [_ [Hnd _]]. rewrite HT in Hnd.
    apply NoDup_app in Hnd as (_ & Hdisj & _).
    rewrite filter_keeps_all, filter_drops_all.
    - apply app_nil_r.
    - intros x Hx Hn. by apply Hn, Hds.
    - intros x Hx Hin%Hds. by apply (Hdisj x). }
  destruct Hwf as [[Hidx _] _].
  destruct (logger s2) as [v2 i2 t2], (logger s) as [v i t]. simpl in *.
  congruence.
Qed.

Lemma register_then_delete_all_restores_witness :
  wf (init main_objects)
  ∧ ∃ s1 (hs : list handle),
      run main_env (map CallAddTarget [tmp1; tmp2; tmp3]) (init main_objects)
        = Some s1
      ∧ Targets (logger s1) = [] ++ hs
      ∧ length hs = 3%nat
      ∧ ∀ ds : list handle,
          (∀ h, h ∈ ds ↔ h ∈ hs) →
          ∃ s2, run main_env (map CallDeleteTarget ds) s1 = Some s2
                ∧ logger s2 = Logger_new.
Proof.
  assert (wf (init main_objects)) as Hwf by by_evaluation.
  split; [exact Hwf|].
  apply (register_then_delete_all_restores main_env [tmp1; tmp2; tmp3]
           (init main_objects) Hwf).
  by_evaluation.
Defined.

Lemma DeleteTarget_sequence_witness :
  wf registered
  ∧ ∃ s',
      run main_env (map CallDeleteTarget [3%positive; 9%positive; 1%positive;
                                          3%positive]) registered = Some s'
      ∧ Targets (logger s')
        = filter (λ h : handle, h ∉ [3%positive; 9%positive; 1%positive; 3%positive])
            [1%positive; 2%positive; 3%positive]
      ∧ InsertIndex (logger s') = Z.of_nat (length (Targets (logger s')))
      ∧ VerboseLevel (logger s') = -2
      ∧ world s' = world registered.
Proof.
  assert (wf registered) as Hwf by by_evaluation.
  split; [exact Hwf|].
  exact (DeleteTarget_sequence main_env
           [3%positive; 9%positive; 1%positive; 3%positive] registered Hwf).
Defined.

(** ** Two loggers in one address space *)

(** X8: a handle handed out by one Logger is unknown to any other Logger in
    the same program: deleting it there changes nothing, and the other
    Logger's handles stay valid and keep their targets. *)
Theorem loggers_do_not_share_handles (target : ptr) (L : Engine.Log) (w : World) :
  index_inv (Engine.CoreLogger L) →
  handles_inv (Engine.CoreLogger L) w →
  handles_inv (Engine.ClientLogger L) w →
  Z.of_nat (length (Targets (Engine.CoreLogger L))) < INT_MAX →
  ∃ (h : handle) core' w',
    AddTarget target (Engine.CoreLogger L) w = Some (h, core', w')
    ∧ (h ∉ Targets (Engine.ClientLogger L))
    ∧ DeleteTarget h (Engine.ClientLogger L) = Some (Engine.ClientLogger L)
    ∧ handles_inv (Engine.ClientLogger L) w'
    ∧ pointees w' (Targets (Engine.ClientLogger L))
      = pointees w (Targets (Engine.ClientLogger L)).
Proof.
  intros Hidx Hcore Hclient Hlt.
  pose proof (AddTarget_append target _ w Hidx Hlt) as Hadd.
  eexists _, _, _. split; [exact Hadd|].
  assert (fresh (dom (cells w)) ∉ Targets (Engine.ClientLogger L)) as Hfresh.
  { destruct Hclient as [_ Hdom]. rewrite Forall_forall in Hdom.
    intros Hin%Hdom. by apply (is_fresh (dom (cells w))). }
  split_and!; [done|by apply DeleteTarget_absent| |].
  - destruct Hclient as [Hnd Hdom]. split; [done|].
    eapply Forall_impl; [exact Hdom|]. intros h Hh. simpl.
    rewrite dom_insert_L. set_solver.
  - apply (pointees_with_fresh_cell w target), Hclient.
Qed.

Lemma loggers_do_not_share_handles_witness :
  index_inv Logger_new
  ∧ handles_inv Logger_new (world registered)
  ∧ handles_inv (logger registered) (world registered)
  ∧ ∃ (h : handle) core' w',
      AddTarget tmp1 Logger_new (world registered) = Some (h, core', w')
      ∧ (h ∉ Targets (logger registered))
      ∧ DeleteTarget h (logger registered) = Some (logger registered)
      ∧ handles_inv (logger registered) w'
      ∧ pointees w' (Targets (logger registered))
        = pointees (world registered) (Targets (logger registered)).
Proof.
  assert (index_inv Logger_new) as Hidx by by_evaluation.
  assert (handles_inv Logger_new (world registered)) as Hcore by by_evaluation.
  assert (handles_inv (logger registered) (world registered)) as Hclient
    by by_evaluation.
  split_and!; [exact Hidx|exact Hcore|exact Hclient|].
  apply (loggers_do_not_share_handles tmp1
           {| Engine.CoreLogger := Logger_new;
              Engine.ClientLogger := logger registered |}
           (world registered) Hidx Hcore Hclient).
  by_evaluation.
Defined.

(** ** What a [Log] call leaves alone *)

Lemma Log_loop_clock env sev msg (targets : list positive) :
  ∀ w,
    Forall (λ h : positive, is_Some (p ← deref w h; objects w !! p)) targets →
    ∃ w' evs,
      for_each_target (λ p, call_Log env p sev msg) targets w = Some w'
      ∧ objects w' = objects w ∧ cells w' = cells w
      ∧ output w' = output w ++ evs
      ∧ length evs = length targets
      ∧ clock_reads w'
        = (clock_reads w + length (filter (λ h, reads_clock w h = true) targets))%nat.
Proof.
  induction targets as [|h hs IH]; intros w Hlive.
  - exists w, []. simpl. rewrite app_nil_r. split_and!; [done..|lia].
  - apply Forall_cons in Hlive as [Hh Hhs]. simpl.
    destruct (deref w h) as [p|] eqn:Hp; [|by destruct Hh]. simpl in *.
    destruct (objects w !! p) as [t|] eqn:Ht; [|by destruct Hh].
    rewrite (call_Log_defined env p sev msg w t Ht). simpl.
    set (w1 := {| objects := objects w; cells := cells w;
                  clock_reads := _; output := _ |}).
    destruct (IH w1) as (w' & evs & Hrun & Ho & Hc & Hout & Hlen & Hclock); [done|].
    exists w', (Write (sink_of t) p
                  (Target_Log env t (clock_reads w) sev msg).1 :: evs).
    split_and!; [done..| | |].
    + rewrite Hout. simpl. by rewrite <- app_assoc.
    + simpl. by rewrite Hlen.
    + rewrite Hclock. simpl clock_reads. rewrite Target_Log_reads.
      assert (reads_clock w h = AddTime t) as Hrc.
      { unfold reads_clock. rewrite Hp. simpl. by rewrite Ht. }
      assert (filter (λ h0, reads_clock w1 h0 = true) hs
              = filter (λ h0, reads_clock w h0 = true) hs) as -> by done.
      rewrite filter_cons, Hrc.
      destruct (AddTime t); simpl; lia.
Qed.

(** X9: a [Log] call changes neither the objects nor the shared cells nor
    anything written before; it appends one event per registered handle
    when the severity passes and none otherwise, and it reads the clock once
    for every registered handle whose target has the timestamp enabled. *)
Theorem Log_only_appends env (sev : SeverityLevels) (msg : string)
  (lg : Logger) (w : World) :
  live lg w →
  ∃ w' evs,
    Log env sev msg lg w = Some w'
    ∧ objects w' = objects w ∧ cells w' = cells w
    ∧ output w' = output w ++ evs
    ∧ length evs
      = (if (severity_int sev <? VerboseLevel lg)%Z then 0
         else length (Targets lg))%nat
    ∧ clock_reads w'
      = (clock_reads w +
         if (severity_int sev <? VerboseLevel lg)%Z then 0
         else length (filter (λ h, reads_clock w h = true) (Targets lg)))%nat.
Proof.
  intros Hlive. unfold Log.
  destruct (severity_int sev <? VerboseLevel lg).
  - exists w, []. rewrite app_nil_r. split_and!; [done..|lia].
  - by apply Log_loop_clock.
Qed.

Lemma Log_only_appends_witness :
  live (logger registered) (world registered)
  ∧ ∃ w' evs,
      Log main_env Failure "All targets" (logger registered) (world registered)
        = Some w'
      ∧ objects w' = main_objects
      ∧ output w' = [] ++ evs
      ∧ length evs = 3%nat
      ∧ clock_reads w' = 3%nat.
Proof.
  assert (live (logger registered) (world registered)) as Hlive by by_evaluation.
  split; [exact Hlive|].
  destruct (Log_only_appends main_env Failure "All targets" _ _ Hlive)
    as (w' & evs & HLog & Ho & _ & Hout & Hlen & Hclock).
  exists w', evs. by split_and!.
Defined.

(** ** The broadcast of a prefix *)

Lemma SetPrefix_loop prefix (targets : list positive) :
  ∀ w,
    Forall (λ h : positive, is_Some (p ← deref w h; objects w !! p)) targets →
    ∃ w',
      for_each_target (call_mutator (Target_SetPrefix prefix)) targets w = Some w'
      ∧ cells w' = cells w ∧ output w' = output w
      ∧ clock_reads w' = clock_reads w
      ∧ ∀ q : positive,
          objects w' !! q =
            if decide (Some q ∈ pointees w targets)
            then Target_SetPrefix prefix <$> objects w !! q
            else objects w !! q.
Proof.
  induction targets as [|h hs IH]; intros w Hlive.
  - exists w. split_and!; [done..|]. intros q.
    rewrite decide_False; [done|apply not_elem_of_nil].
  - apply Forall_cons in Hlive as [Hh Hhs]. simpl.
    destruct (deref w h) as [p|] eqn:Hp; [|by destruct Hh]. simpl in *.
    destruct (objects w !! p) as [t|] eqn:Ht; [|by destruct Hh].
    rewrite (call_mutator_defined _ p w t Ht). simpl.
    set (w1 := {| objects := _; cells := cells w;
                  clock_reads := _; output := _ |}).
    destruct (IH w1) as (w' & Hrun & Hc & Hout & Hclock & Hobj).
    { eapply Forall_impl; [exact Hhs|]. intros h' Hh'. simpl in *.
      unfold deref in *. simpl. destruct (cells w !! h') as [p'|]; [|done].
      simpl in *. apply lookup_insert_is_Some.
      destruct (decide (p = p')); [by left|by right]. }
    exists w'. split_and!; [done..|]. intros q. rewrite Hobj.
    change (pointees w1 hs) with (pointees w hs). simpl objects.
    destruct (decide (q = p)) as [->|Hne].
    + rewrite lookup_insert_eq, Ht.
      rewrite (decide_True (P := Some p ∈ Some p :: pointees w hs)) by left.
      by destruct (decide (Some p ∈ pointees w hs)).
    + rewrite lookup_insert_ne by done.
      destruct (decide (Some q ∈ pointees w hs)) as [Hin|Hnin].
      * rewrite decide_True; [done|by right].
      * rewrite decide_False; [done|].
        intros [Heq|Hin]%elem_of_cons; [congruence|done].
Qed.

(** X10: [Logger::SetPrefix] is defined whenever the registered targets are
    alive.  It sets the prefix of every object behind a registered handle,
    also of one registered twice, leaves the other settings of those objects
    and every other object alone, and writes nothing. *)
Theorem SetPrefix_reaches_exactly_the_registered (prefix : string)
  (lg : Logger) (w : World) :
  live lg w →
  ∃ w',
    SetPrefix prefix lg w = Some w'
    ∧ cells w' = cells w ∧ output w' = output w
    ∧ clock_reads w' = clock_reads w
    ∧ ∀ q : ptr,
        objects w' !! q =
          if decide (Some q ∈ pointees w (Targets lg))
          then Target_SetPrefix prefix <$> objects w !! q
          else objects w !! q.
Proof. apply SetPrefix_loop. Qed.

Lemma SetPrefix_reaches_exactly_the_registered_witness :
  live (logger registered) (world registered)
  ∧ ∃ w',
      SetPrefix "[ENIGNE]" (logger registered) (world registered) = Some w'
      ∧ objects w' !! tmp3
        = Some (Target_SetPrefix "[ENIGNE]" (FileTarget "LogFile.log" false true true))
      ∧ objects w' !! 4%positive = None.
Proof.
  assert (live (logger registered) (world registered)) as Hlive by by_evaluation.
  split; [exact Hlive|].
  destruct (SetPrefix_reaches_exactly_the_registered "[ENIGNE]" _ _ Hlive)
    as (w' & Hset & _ & _ & _ & Hobj).
  exists w'. split_and!; [done|by rewrite Hobj..].
Defined.

Lemma nonempty_true (s : string) : s ≠ "" → nonempty s = true.
Proof.
  intros Hne. unfold nonempty. apply negb_true_iff. by apply String.eqb_neq.
Qed.

Lemma renders_sources env w sev msg (hs : list positive) evs :
  Forall2 (renders env w sev msg) hs evs →
  Forall (λ e, ∃ h (t : Target) (n : nat),
                h ∈ hs ∧ deref w h = Some (ev_target e)
                ∧ objects w !! ev_target e = Some t
                ∧ ev_text e = (Target_Log env t n sev msg).1) evs.
Proof.
  induction 1 as [|h e hs evs (p & t & n & Hp & Ht & ->) _ IH]; [done|].
  constructor.
  - exists h, t, n. simpl. split_and!; [left|done..].
  - eapply Forall_impl; [exact IH|].
    intros e' (h' & t' & n' & Hin & Hrest). exists h', t', n'.
    split; [by right|done].
Qed.

(** X11: after [Logger::SetPrefix] with a non-empty prefix, every line that an
    accepted [Log] call writes, to whichever registered target, starts with
    that prefix and one space. *)
Theorem SetPrefix_then_Log_prefixes_every_line env (prefix : string)
  (sev : SeverityLevels) (msg : string) (lg : Logger) (w : World) :
  live lg w →
  prefix ≠ "" →
  VerboseLevel lg <= severity_int sev →
  ∃ w1 w2 evs,
    SetPrefix prefix lg w = Some w1
    ∧ Log env sev msg lg w1 = Some w2
    ∧ output w2 = output w ++ evs
    ∧ length evs = length (Targets lg)
    ∧ Forall (λ e, ∃ rest, ev_text e = prefix +:+ SP +:+ rest) evs.
Proof.
  intros Hlive Hne HV.
  destruct (SetPrefix_loop prefix (Targets lg) w Hlive)
    as (w1 & Hset & Hc & Hout & _ & Hobj).
  assert (live lg w1) as Hlive1.
  { unfold live in *. eapply Forall_impl; [exact Hlive|]. intros h Hh. simpl in *.
    unfold deref in *. rewrite Hc. destruct (cells w !! h) as [p|]; [|done].
    simpl in *. rewrite Hobj. destruct Hh as [t Ht]. rewrite Ht.
    by destruct (decide _). }
  destruct (Log_accepts env sev msg lg w1 Hlive1 HV)
    as (w2 & evs & HLog & _ & _ & Hout2 & Hall).
  exists w1, w2, evs. split_and!; [done|done|by rewrite Hout2, Hout| |].
  - symmetry. by eapply Forall2_length.
  - eapply Forall_impl; [exact (renders_sources _ _ _ _ _ _ Hall)|].
    intros e (h & t & n & Hin & Hd & Ht & ->).
    rewrite Hobj in Ht.
    assert (Some (ev_target e) ∈ pointees w (Targets lg)) as Hpt.
    { unfold pointees. apply list_elem_of_fmap. exists h. split; [|done].
      unfold deref in *. by rewrite <- Hc. }
    rewrite decide_True in Ht by done.
    destruct (objects w !! ev_target e) as [t0|]; [|done].
    injection Ht as <-.
    by apply Target_Log_starts_with_prefix, nonempty_true.
Qed.

Lemma SetPrefix_then_Log_prefixes_every_line_witness :
  live (logger registered) (world registered)
  ∧ "[ENIGNE]" ≠ ""
  ∧ ∃ w1 w2 evs,
      SetPrefix "[ENIGNE]" (logger registered) (world registered) = Some w1
      ∧ Log main_env Warning "Warning" (logger registered) w1 = Some w2
      ∧ output w2 = [] ++ evs
      ∧ length evs = 3%nat
      ∧ Forall (λ e, ∃ rest, ev_text e = "[ENIGNE]" +:+ SP +:+ rest) evs.
Proof.
  assert (live (logger registered) (world registered)) as Hlive by by_evaluation.
  assert ("[ENIGNE]" ≠ "") as Hne by discriminate.
  split_and!; [exact Hlive|exact Hne|].
  apply (SetPrefix_then_Log_prefixes_every_line main_env "[ENIGNE]" Warning
           "Warning" (logger registered) (world registered) Hlive Hne).
  by_evaluation.
Defined.

(** ** Removal and dispatch *)

(** X12: after [DeleteTarget h] an accepted [Log] call writes for the remaining
    entries only, in their old order; when no remaining handle leads to the
    target that [h] led to, that target receives nothing. *)
Theorem deleted_registration_receives_nothing env (h : handle)
  (sev : SeverityLevels) (msg : string) (s : State) :
  wf s → live (logger s) (world s) →
  VerboseLevel (logger s) <= severity_int sev →
  ∃ lg' w' evs,
    DeleteTarget h (logger s) = Some lg'
    ∧ Log env sev msg lg' (world s) = Some w'
    ∧ output w' = output (world s) ++ evs
    ∧ Forall2 (renders env (world s) sev msg)
        (filter (λ h' : handle, h' ≠ h) (Targets (logger s))) evs
    ∧ ∀ p : ptr,
        deref (world s) h = Some p →
        (∀ h' : handle, h' ∈ Targets (logger s) → h' ≠ h →
                        deref (world s) h' ≠ Some p) →
        Forall (λ e, ev_target e ≠ p) evs.
Proof.
  intros [Hidx [Hnd _]] Hlive HV.
  destruct (DeleteTarget_filter h (logger s) Hidx Hnd)
    as (lg' & Hdel & HT & HV' & _).
  assert (live lg' (world s)) as Hlive'.
  { unfold live in *. rewrite HT. rewrite Forall_forall in *.
    intros h' [_ Hh']%list_elem_of_filter. by apply Hlive. }
  destruct (Log_accepts env sev msg lg' (world s) Hlive')
    as (w' & evs & HLog & _ & _ & Hout & Hall); [by rewrite HV'|].
  rewrite HT in Hall.
  exists lg', w', evs. split_and!; [done..|].
  intros p Hp Hother.
  eapply Forall_impl; [exact (renders_sources _ _ _ _ _ _ Hall)|].
  intros e (h' & t & n & [Hne Hin]%list_elem_of_filter & Hd & _) Heq.
  apply (Hother h' Hin Hne). by rewrite Hd, Heq.
Qed.

Lemma deleted_registration_receives_nothing_witness :
  wf registered
  ∧ live (logger registered) (world registered)
  ∧ ∃ lg' w' evs,
      DeleteTarget 2%positive (logger registered) = Some lg'
      ∧ Log main_env Failure "x" lg' (world registered) = Some w'
      ∧ output w' = [] ++ evs
      ∧ Forall2 (renders main_env (world registered) Failure "x")
          (filter (λ h' : handle, h' ≠ 2%positive) [1%positive; 2%positive; 3%positive])
          evs.
Proof.
  assert (wf registered) as Hwf by by_evaluation.
  assert (live (logger registered) (world registered)) as Hlive by by_evaluation.
  split_and!; [exact Hwf|exact Hlive|].
  destruct (deleted_registration_receives_nothing main_env 2%positive Failure "x"
              registered Hwf Hlive)
    as (lg' & w' & evs & Hdel & HLog & Hout & Hall & _); [by_evaluation|].
  by exists lg', w', evs.
Defined.

(** ** Runs that never leave defined behaviour *)

Lemma live_same_store lg w w' :
  cells w' = cells w → dom (objects w') = dom (objects w) →
  live lg w → live lg w'.
Proof.
  intros Hc Hdom Hlive. unfold live in *.
  eapply Forall_impl; [exact Hlive|]. intros h Hh. simpl in *.
  unfold deref in *. rewrite Hc. destruct (cells w !! h) as [p|]; [|done].
  simpl in *. by rewrite <- elem_of_dom, Hdom, elem_of_dom.
Qed.

Lemma call_Log_dom env p sev msg w w' :
  call_Log env p sev msg w = Some w' → dom (objects w') = dom (objects w).
Proof. intros H. by rewrite (call_Log_objects _ _ _ _ _ _ H). Qed.

Lemma call_mutator_dom f p w w' :
  call_mutator f p w = Some w' → dom (objects w') = dom (objects w).
Proof.
  unfold call_mutator. destruct (objects w !! p) as [t|] eqn:Ht; [|done].
  intros [= <-]. simpl. apply dom_insert_lookup_L. by exists t.
Qed.

Lemma call_Log_is_defined env p sev msg w :
  is_Some (objects w !! p) → is_Some (call_Log env p sev msg w).
Proof. intros [t Ht]. by rewrite (call_Log_defined _ _ _ _ _ _ Ht). Qed.

Lemma call_mutator_is_defined f p w :
  is_Some (objects w !! p) → is_Some (call_mutator f p w).
Proof. intros [t Ht]. by rewrite (call_mutator_defined _ _ _ _ Ht). Qed.

(** A loop over live handles is defined when its body is defined on every
    live object and keeps cells and the set of objects as they are. *)
Lemma for_each_target_is_defined (body : positive → World → option World)
  (targets : list positive) :
  (∀ p w, is_Some (objects w !! p) → is_Some (body p w)) →
  (∀ p w w', body p w = Some w' →
             cells w' = cells w ∧ dom (objects w') = dom (objects w)) →
  ∀ w,
    Forall (λ h : positive, is_Some (p ← deref w h; objects w !! p)) targets →
    is_Some (for_each_target body targets w).
Proof.
  intros Hdef Hkeep. induction targets as [|h hs IH]; intros w Hlive; [done|].
  apply Forall_cons in Hlive as [Hh Hhs]. simpl.
  destruct (deref w h) as [p|] eqn:Hp; [|by destruct Hh]. simpl in *.
  destruct (Hdef p w Hh) as [w1 Hw1]. rewrite Hw1. simpl.
  destruct (Hkeep _ _ _ Hw1) as [Hc Hdom].
  apply IH.
  apply (live_same_store {| VerboseLevel := 0; InsertIndex := 0; Targets := hs |}
           w w1 Hc Hdom Hhs).
Qed.

Lemma step_dom env c s s' :
  step env c s = Some s' →
  dom (objects (world s')) = dom (objects (world s)).
Proof.
  intros Hstep. destruct c; simpl in Hstep.
  - unfold AddTarget in Hstep.
    destruct (vector_emplace _ _ _); [|done]. simpl in Hstep.
    destruct (int_incr _); [|done]. simpl in Hstep.
    destruct (vector_at _ _); [|done]. by injection Hstep as <-.
  - destruct (DeleteTarget _ _); [|done]. by injection Hstep as <-.
  - by injection Hstep as <-.
  - by injection Hstep as <-.
  - destruct (SetPrefix _ _ _) as [w|] eqn:E; [|done]. injection Hstep as <-.
    simpl. revert E. apply (for_each_target_preserves (λ w, dom (objects w))).
    intros ???. apply call_mutator_dom.
  - destruct (Log _ _ _ _ _) as [w|] eqn:E; [|done]. injection Hstep as <-.
    simpl. unfold Log in E. destruct (_ <? _); [by injection E as <-|].
    revert E. apply (for_each_target_preserves (λ w, dom (objects w))).
    intros ???. apply call_Log_dom.
  - destruct (Log_message _ _ _ _) as [w|] eqn:E; [|done]. injection Hstep as <-.
    simpl. unfold Log_message, Log in E. destruct (_ <? _); [by injection E as <-|].
    revert E. apply (for_each_target_preserves (λ w, dom (objects w))).
    intros ???. apply call_Log_dom.
  - destruct (call_mutator _ _ _) as [w|] eqn:E; [|done]. injection Hstep as <-.
    by eapply call_mutator_dom.
  - destruct (call_Log _ _ _ _ _) as [w|] eqn:E; [|done]. injection Hstep as <-.
    by eapply call_Log_dom.
Qed.

Lemma Log_is_defined env sev msg lg w :
  live lg w → is_Some (Log env sev msg lg w).
Proof.
  intros Hlive. unfold Log. destruct (_ <? _); [done|].
  apply for_each_target_is_defined; [| |done].
  - intros. by apply call_Log_is_defined.
  - intros p w0 w' H. split; [by eapply call_Log_cells|by eapply call_Log_dom].
Qed.

Lemma SetPrefix_is_defined prefix lg w :
  live lg w → is_Some (SetPrefix prefix lg w).
Proof.
  intros Hlive. apply for_each_target_is_defined; [| |done].
  - intros. by apply call_mutator_is_defined.
  - intros p w0 w' H. split; [by eapply call_mutator_cells|by eapply call_mutator_dom].
Qed.

(** One call with valid pointers, from a well-formed state with live
    targets and room for one more entry, is defined and leads to such a
    state again. *)
Lemma step_safe env c s :
  wf s → live (logger s) (world s) → valid_call (world s) c →
  Z.of_nat (length (Targets (logger s))) < INT_MAX →
  ∃ s', step env c s = Some s'
        ∧ wf s' ∧ live (logger s') (world s')
        ∧ dom (objects (world s')) = dom (objects (world s))
        ∧ (length (Targets (logger s')) ≤ S (length (Targets (logger s))))%nat.
Proof.
  intros Hwf Hlive Hvalid Hlt.
  assert (∃ s', step env c s = Some s'
                ∧ live (logger s') (world s')
                ∧ (length (Targets (logger s')) ≤ S (length (Targets (logger s))))%nat)
    as (s' & Hstep & Hlive' & Hlen).
  { destruct Hwf as [Hidx Hh].
    destruct c as [target|deleteTarget|v|sv|pre|severityLevel message|message
                  |p m|p severityLevel message]; simpl in *.
    - destruct (AddTarget_registers target (logger s) (world s))
        as (h & lg' & Hadd & _ & HT & _ & _ & _ & Hl & _); [done..|].
      rewrite Hadd. simpl. eexists. split_and!; [done|done|].
      simpl. rewrite HT, length_app. simpl. lia.
    - destruct (DeleteTarget_total deleteTarget (logger s) Hidx) as (lg' & Hd & Hle).
      rewrite Hd. simpl. eexists. split_and!; [done| |simpl; lia].
      simpl. unfold DeleteTarget in Hd.
      destruct (list_find _ _) as [[it x]|]; [|by injection Hd as <-].
      destruct (int_decr _); [|done]. injection Hd as <-.
      unfold live in *. simpl. rewrite Forall_forall in *.
      intros h' Hh'. by eapply Hlive, list_elem_of_delete_inv.
    - eexists. split_and!; [done|done|simpl; lia].
    - eexists. split_and!; [done|done|simpl; lia].
    - destruct (SetPrefix_is_defined pre _ _ Hlive) as [w Hw].
      rewrite Hw. simpl. eexists. split_and!; [done| |simpl; lia].
      simpl. eapply live_same_store; [by eapply SetPrefix_cells| |done].
      revert Hw. apply (for_each_target_preserves (λ w, dom (objects w))).
      intros ???. apply call_mutator_dom.
    - destruct (Log_is_defined env severityLevel message _ _ Hlive) as [w Hw].
      rewrite Hw. simpl. eexists. split_and!; [done| |simpl; lia].
      simpl. eapply live_same_store; [by eapply Log_cells| |done].
      unfold Log in Hw. destruct (_ <? _); [by injection Hw as <-|].
      revert Hw. apply (for_each_target_preserves (λ w, dom (objects w))).
      intros ???. apply call_Log_dom.
    - destruct (Log_is_defined env Unknown message _ _ Hlive) as [w Hw].
      unfold Log_message. rewrite Hw. simpl.
      eexists. split_and!; [done| |simpl; lia].
      simpl. eapply live_same_store; [by eapply Log_cells| |done].
      unfold Log in Hw. destruct (_ <? _); [by injection Hw as <-|].
      revert Hw. apply (for_each_target_preserves (λ w, dom (objects w))).
      intros ???. apply call_Log_dom.
    - destruct (call_mutator_is_defined (mutate m) p _ Hvalid) as [w Hw].
      rewrite Hw. simpl. eexists. split_and!; [done| |simpl; lia].
      simpl. eapply live_same_store;
        [by eapply call_mutator_cells|by eapply call_mutator_dom|done].
    - destruct (call_Log_is_defined env p severityLevel message _ Hvalid) as [w Hw].
      rewrite Hw. simpl. eexists. split_and!; [done| |simpl; lia].
      simpl. eapply live_same_store;
        [by eapply call_Log_cells|by eapply call_Log_dom|done]. }
  exists s'. split_and!; [done|by eapply step_wf|done|by eapply step_dom|done].
Qed.

Lemma valid_call_dom w w' c :
  dom (objects w') = dom (objects w) → valid_call w c → valid_call w' c.
Proof.
  intros Hdom. unfold valid_call. destruct (pointer_of_call c); [|done].
  by rewrite <- !elem_of_dom, Hdom.
Qed.

Lemma run_safe env calls :
  ∀ s,
    wf s → live (logger s) (world s) →
    Forall (valid_call (world s)) calls →
    Z.of_nat (length (Targets (logger s))) + Z.of_nat (length calls) <= INT_MAX →
    ∃ s', run env calls s = Some s'
          ∧ wf s' ∧ live (logger s') (world s')
          ∧ dom (objects (world s')) = dom (objects (world s)).
Proof.
  induction calls as [|c calls IH]; intros s Hwf Hlive Hvalid Hlen.
  - by exists s.
  - apply Forall_cons in Hvalid as [Hc Hcs]. simpl length in Hlen.
    destruct (step_safe env c s Hwf Hlive Hc) as (s1 & Hstep & Hwf1 & Hl1 & Hd1 & Hlen1);
      [lia|].
    destruct (IH s1 Hwf1 Hl1) as (s' & Hrun & Hwf' & Hl' & Hd').
    { eapply Forall_impl; [exact Hcs|]. intros c'. by apply valid_call_dom. }
    { lia. }
    exists s'. simpl. rewrite Hstep. simpl. split_and!; [done..|].
    by rewrite Hd', Hd1.
Qed.

(** X13: as long as the caller passes and uses only pointers to objects that
    exist, and the vector stays within the range of [int], no sequence of
    calls ever reaches undefined behaviour: the run completes, the state
    stays well formed, every registered handle still leads to an object,
    and no object appears or disappears. *)
Theorem valid_pointers_keep_every_call_defined env (calls : list Call)
  (s : State) :
  wf s → live (logger s) (world s) →
  Forall (valid_call (world s)) calls →
  Z.of_nat (length (Targets (logger s))) + Z.of_nat (length calls) <= INT_MAX →
  ∃ s', run env calls s = Some s'
        ∧ wf s' ∧ live (logger s') (world s')
        ∧ dom (objects (world s')) = dom (objects (world s)).
Proof. apply run_safe. Qed.

Lemma valid_pointers_keep_every_call_defined_witness :
  wf (init main_objects)
  ∧ live (logger (init main_objects)) (world (init main_objects))
  ∧ Forall (valid_call (world (init main_objects))) main_calls
  ∧ ∃ s', run main_env main_calls (init main_objects) = Some s'
          ∧ wf s' ∧ live (logger s') (world s')
          ∧ dom (objects (world s')) = dom (objects (world (init main_objects))).
Proof.
  assert (wf (init main_objects)) as Hwf by by_evaluation.
  assert (live (logger (init main_objects)) (world (init main_objects)))
    as Hlive by by_evaluation.
  assert (Forall (valid_call (world (init main_objects))) main_calls)
    as Hvalid by by_evaluation.
  split_and!; [exact Hwf|exact Hlive|exact Hvalid|].
  apply (valid_pointers_keep_every_call_defined main_env main_calls
           (init main_objects) Hwf Hlive Hvalid).
  by_evaluation.
Defined.

(** ** The default threshold *)

Lemma step_keeps_VerboseLevel env c s s' :
  sets_verbosity c = false → step env c s = Some s' →
  VerboseLevel (logger s') = VerboseLevel (logger s).
Proof.
  intros Hc Hstep. destruct c; simpl in Hc, Hstep; try done;
    try (destruct (_ : option World); [|done]; by injection Hstep as <-).
  - unfold AddTarget in Hstep.
    destruct (vector_emplace _ _ _); [|done]. simpl in Hstep.
    destruct (int_incr _); [|done]. simpl in Hstep.
    destruct (vector_at _ _); [|done]. by injection Hstep as <-.
  - unfold DeleteTarget in Hstep.
    destruct (list_find _ _) as [[it x]|]; simpl in Hstep.
    + destruct (int_decr _); [|done]. by injection Hstep as <-.
    + by injection Hstep as <-.
Qed.

Lemma run_keeps_VerboseLevel env calls :
  ∀ s s',
    forallb (λ c, negb (sets_verbosity c)) calls = true →
    run env calls s = Some s' →
    VerboseLevel (logger s') = VerboseLevel (logger s).
Proof.
  induction calls as [|c calls IH]; intros s s' Hno Hrun; simpl in *.
  - by injection Hrun as <-.
  - apply andb_true_iff in Hno as [Hc Hno]. apply negb_true_iff in Hc.
    destruct (step env c s) as [s1|] eqn:Hstep; [|done]. simpl in Hrun.
    rewrite (IH _ _ Hno Hrun). by eapply step_keeps_VerboseLevel.
Qed.

(** X14: a Logger whose threshold was never set filters nothing: after any
    sequence of calls other than [SetVerboseLevel] on a new Logger, a [Log]
    call of every severity, [Verbose] included, is rendered by every
    registered target. *)
Theorem default_threshold_filters_nothing env (calls : list Call)
  (objs : gmap ptr Target) :
  forallb (λ c, negb (sets_verbosity c)) calls = true →
  Forall (valid_call (world (init objs))) calls →
  Z.of_nat (length calls) <= INT_MAX →
  ∃ s,
    run env calls (init objs) = Some s
    ∧ VerboseLevel (logger s) = severity_int Verbose
    ∧ ∀ (sev : SeverityLevels) (msg : string),
        ∃ w' evs,
          Log env sev msg (logger s) (world s) = Some w'
          ∧ output w' = output (world s) ++ evs
          ∧ Forall2 (renders env (world s) sev msg) (Targets (logger s)) evs.
Proof.
  intros Hno Hvalid Hlen.
  destruct (run_safe env calls (init objs)) as (s & Hrun & Hwf & Hlive & _);
    [apply init_wf|apply Forall_nil_2|done|simpl; lia|].
  pose proof (run_keeps_VerboseLevel env calls _ _ Hno Hrun) as HV. simpl in HV.
  exists s. split_and!; [done..|].
  intros sev msg.
  destruct (Log_accepts env sev msg (logger s) (world s) Hlive)
    as (w' & evs & HLog & _ & _ & Hout & Hall).
  { rewrite HV. destruct sev; simpl; lia. }
  by exists w', evs.
Qed.

Lemma default_threshold_filters_nothing_witness :
  Forall (valid_call (world (init main_objects)))
    [CallAddTarget tmp1; CallAddTarget tmp3; CallSetPrefix "[ENIGNE]"]
  ∧ ∃ s,
      run main_env [CallAddTarget tmp1; CallAddTarget tmp3; CallSetPrefix "[ENIGNE]"]
        (init main_objects) = Some s
      ∧ VerboseLevel (logger s) = -2
      ∧ ∀ (sev : SeverityLevels) (msg : string),
          ∃ w' evs,
            Log main_env sev msg (logger s) (world s) = Some w'
            ∧ output w' = output (world s) ++ evs
            ∧ Forall2 (renders main_env (world s) sev msg) (Targets (logger s)) evs.
Proof.
  assert (Forall (valid_call (world (init main_objects)))
            [CallAddTarget tmp1; CallAddTarget tmp3; CallSetPrefix "[ENIGNE]"])
    as Hvalid by by_evaluation.
  split; [exact Hvalid|].
  apply (default_threshold_filters_nothing main_env
           [CallAddTarget tmp1; CallAddTarget tmp3; CallSetPrefix "[ENIGNE]"]
           main_objects); [reflexivity|exact Hvalid|by_evaluation].
Defined.

End SimpleLogger.
